(** * Dashboard: the customer/order query-and-mutation service

    A shallow embedding of [src/lib/mockData.ts], [src/pages/api/customers.ts]
    and [src/pages/api/customers/[id]/orders.ts], and the properties of the
    filter / sort / paginate pipeline and of the store mutations; and of the
    calls [src/components/CustomerTable.tsx] and
    [src/components/OrdersTable.tsx] make to these routes.

    Conventions of the embedding
    - JavaScript strings are [string]s of ASCII characters ([Js.is_ascii]);
      on these [toLowerCase] maps 'A'..'Z' to 'a'..'z', the relational
      operators on strings are the lexicographic order on character codes
      and the white space [parseInt] skips is ASCII white space.  The
      properties of case folding carry [Js.is_ascii] as a hypothesis.
    - [parseInt] is modelled by the integer its digits denote.  The Number
      it returns is that integer as long as it is a safe integer
      ([Js.safe]: at most 2^53 - 1 in magnitude), and the arithmetic of the
      handler is exact on safe integers; beyond them a double rounds, and
      overflows to an infinity.  The properties of a page and a limit read
      from a query string carry this bound as a hypothesis.
    - Finite JavaScript numbers are rationals ([Q]; every finite double is
      one).  Where NaN or an infinity can arise it is written out: request
      bodies carry a [Num], [parseInt] returns [option Z] ([None] is NaN),
      and numbers of a response are modelled after JSON serialisation, where
      NaN and the infinities become [null] ([None]).  Addition of prices is a
      parameter of the generator, so nothing is assumed of its rounding.
    - The module-level array [mockCustomers], the faker generator and the
      clock are threaded explicitly as a [State]. *)

Set Warnings "-register-all".
From Stdlib Require Import ZArith QArith String Ascii Sorted Permutation Lia.
From stdpp Require Import base option list sorting strings gmap pretty.

Local Open Scope string_scope.
Local Open Scope list_scope.
Local Open Scope Z_scope.

(** ** JavaScript values and the built-ins the service uses *)

Module Js.

(** *** Strings *)

Definition lower_char (c : ascii) : ascii :=
  let n := nat_of_ascii c in
  if ((65 <=? n) && (n <=? 90))%nat then ascii_of_nat (n + 32) else c.


(** [String.prototype.toLowerCase], on ASCII strings. *)
Fixpoint toLowerCase (s : string) : string :=
  match s with
  | EmptyString => EmptyString
  | String c s' => String (lower_char c) (toLowerCase s')
  end.

(** [String.prototype.includes]: [t] occurs in [s] at some position. *)
Fixpoint includes (s t : string) : bool :=
  String.prefix t s ||
  match s with
  | EmptyString => false
  | String _ s' => includes s' t
  end.

(** [a < b] on two strings. *)
Definition str_lt (a b : string) : bool :=
  match String.compare a b with Lt => true | _ => false end.

(** [Array.prototype.join] on strings. *)
Definition join (sep : string) (l : list string) : string := String.concat sep l.

(** *** [parseInt(s, 10)] *)

Definition is_space (c : ascii) : bool :=
  let n := nat_of_ascii c in
  ((9 <=? n) && (n <=? 13) || (n =? 32))%nat.

Definition digit_of (c : ascii) : option Z :=
  let n := nat_of_ascii c in
  if ((48 <=? n) && (n <=? 57))%nat then Some (Z.of_nat (n - 48)) else None.

Fixpoint skip_spaces (s : string) : string :=
  match s with
  | String c s' => if is_space c then skip_spaces s' else s
  | EmptyString => s
  end.

(** The digits at the front of [s], read in base ten after [acc]. *)
Fixpoint digits (acc : option Z) (s : string) : option Z :=
  match s with
  | String c s' =>
      match digit_of c with
      | Some d => digits (Some (10 * default 0 acc + d)) s'
      | None => acc
      end
  | EmptyString => acc
  end.

(** The integer [parseInt(s, 10)] reads, before it is made a Number.
    [None] is NaN.  The sign of a zero is dropped: it is not observable
    in a JSON response and both zeros are the same array index. *)
Definition parseInt (s : string) : option Z :=
  match skip_spaces s with
  | String "-" s' => Z.opp <$> digits None s'
  | String "+" s' => digits None s'
  | s' => digits None s'
  end.

(** [Number.MAX_SAFE_INTEGER] *)
Definition MAX_SAFE_INTEGER : Z := 2 ^ 53 - 1.

(** The integers that are Numbers, and on which [+], [-] and [*] are exact
    as long as the result is one of them. *)
Definition safe (z : Z) : Prop := - MAX_SAFE_INTEGER ≤ z ≤ MAX_SAFE_INTEGER.

(** *** Numbers of a request body *)

Inductive Num :=
| Fin (q : Q)
| NaN
| Inf (negative : bool).

(** The parsed JSON body of a request.  [JUndef] is an absent body or an
    absent property; the fields of an object are its properties, each name
    once. *)
Inductive Val :=
| JUndef
| JNull
| JBool (b : bool)
| JNum (n : Num)
| JStr (s : string)
| JArr (l : list Val)
| JObj (fields : list (string * Val)).

(** [!v] is [negb (truthy v)]. *)
Definition truthy (v : Val) : bool :=
  match v with
  | JUndef | JNull => false
  | JBool b => b
  | JNum (Fin q) => negb (Qeq_bool q 0)
  | JNum NaN => false
  | JNum (Inf _) => true
  | JStr s => negb (s =? "")%string
  | JArr _ | JObj _ => true
  end.

Inductive Type_ := TUndefined | TObject | TBoolean | TNumber | TString.

Definition typeof (v : Val) : Type_ :=
  match v with
  | JUndef => TUndefined
  | JNull | JArr _ | JObj _ => TObject
  | JBool _ => TBoolean
  | JNum _ => TNumber
  | JStr _ => TString
  end.

Fixpoint assoc (k : string) (fields : list (string * Val)) : Val :=
  match fields with
  | [] => JUndef
  | (k', v) :: rest => if (k' =? k)%string then v else assoc k rest
  end.

(** [v.k] or [const { k } = v], for the property names the handlers read
    ([customerId], [status], [orderId], [orderItemId], [customSize],
    [chest], [waist], [hips]): none of them is a property of a primitive,
    of an array or of [Object.prototype], so only the fields of a JSON
    object can answer.  Reading a property of [undefined] or [null] throws
    a TypeError ([None]). *)
Definition get (v : Val) (k : string) : option Val :=
  match v with
  | JUndef | JNull => None
  | JObj fields => Some (assoc k fields)
  | _ => Some JUndef
  end.

(** [l.includes(v)] on an array of strings (SameValueZero): only a string
    can be found, and it is returned as the string it is. *)
Definition includes_str (l : list string) (v : Val) : option string :=
  match v with
  | JStr s => if bool_decide (s ∈ l) then Some s else None
  | _ => None
  end.

(** [s === v] for a string [s]. *)
Definition strict_eq_str (s : string) (v : Val) : bool :=
  match v with
  | JStr t => (s =? t)%string
  | _ => false
  end.

(** *** Arrays *)

(** [Array.prototype.sort(cmp)].  ECMAScript leaves the algorithm open
    but requires the result to be the stable sorted permutation whenever
    [cmp] is a consistent comparator; a stable insertion sort computes it
    (uniqueness is [sort_unique] below).  [cmp x y] is the number the
    comparator returns: negative puts [x] first, positive puts [y] first
    and zero keeps the order of the input. *)
Section Sort.
Context {A : Type} (cmp : A → A → Z).

Fixpoint insert (x : A) (l : list A) : list A :=
  match l with
  | [] => [x]
  | y :: l' => if (cmp x y <=? 0)%Z then x :: l else y :: insert x l'
  end.

Definition sort (l : list A) : list A := foldr insert [] l.
End Sort.

(** [l.find(p)], together with the position of the element found: the
    position stands for the reference JavaScript returns, through which
    the callers assign to the element in place. *)
Definition find {A} (p : A → bool) (l : list A) : option (nat * A) :=
  list_find (λ x, p x = true) l.

(** [ToIntegerOrInfinity] of an index argument followed by the clamping of
    [Array.prototype.slice]: NaN is 0, a negative index counts from the
    end. *)
Definition clamp_index (len : nat) (i : option Z) : nat :=
  match i with
  | None => 0%nat
  | Some z => if (z <? 0)%Z then Z.to_nat (Z.max (Z.of_nat len + z) 0)
              else Z.to_nat (Z.min z (Z.of_nat len))
  end.

(** [l.slice(start, end)] *)
Definition slice {A} (l : list A) (start end_ : option Z) : list A :=
  let k := clamp_index (length l) start in
  let final := clamp_index (length l) end_ in
  take (final - k) (drop k l).

End Js.

(** ** [lib/mockData.ts]: the data model, the generator and the store *)

Module MockData.

(** [faker], [date-fns] and the clock, as the generator uses them.  Each
    draw reads and advances the state [W] of the outside world. *)
Class Env (W : Type) := {
  (** [faker.number.int({ min, max })] *)
  number_int : Z → Z → W → Z * W;
  (** [faker.string.uuid()] *)
  string_uuid : W → string * W;
  (** [faker.helpers.arrayElement(array)] *)
  helpers_arrayElement : list string → W → string * W;
  (** [parseFloat(faker.commerce.price({ min, max }))]: faker prints a
      decimal number and [parseFloat] reads it back, a finite number *)
  commerce_price : Z → Z → W → Q * W;
  (** [faker.person.fullName()] *)
  person_fullName : W → string * W;
  (** [faker.internet.email()] *)
  internet_email : W → string * W;
  (** [formatISO(subDays(new Date(), n))] *)
  days_ago : Z → W → string * W;
  (** [new Date(s).getTime()], for the dates [formatISO] printed *)
  getTime : string → Z;
  (** [+] on two finite numbers, with whatever rounding it has *)
  add : Q → Q → Q
}.

(** Computations that draw from the outside world. *)
Definition Gen (W A : Type) : Type := W → A * W.

Definition ret {W A} (x : A) : Gen W A := λ w, (x, w).
Definition bind {W A B} (m : Gen W A) (k : A → Gen W B) : Gen W B :=
  λ w, let '(x, w') := m w in k x w'.

Notation "'let*' x := m 'in' k" := (bind m (λ x, k))
  (at level 10, x name, m at level 100, k at level 200).

(** [Array.from({ length }, (_, i) => f(i))], the calls made in order. *)
Fixpoint array_from_at {W A} (i n : nat) (f : nat → Gen W A) : Gen W (list A) :=
  match n with
  | O => ret []
  | S n' => let* x := f i in let* xs := array_from_at (S i) n' f in ret (x :: xs)
  end.

Definition array_from {W A} (length : Z) (f : nat → Gen W A) : Gen W (list A) :=
  array_from_at 0 (Z.to_nat length) f.

(** [l.map((x, index) => f(x, index))], the calls made in order. *)
Fixpoint map_at {W A B} (i : nat) (f : A → nat → Gen W B) (l : list A)
  : Gen W (list B) :=
  match l with
  | [] => ret []
  | x :: l' => let* y := f x i in let* ys := map_at (S i) f l' in ret (y :: ys)
  end.

(** [interface OrderItem].  [customSize] is declared a [CustomSize]; the
    handler assigns the object of the request body to it as it came, so the
    field holds a JSON value. *)
Record OrderItem := {
  orderItemId : string;
  itemName : string;
  category : string;
  price : Q;
  customSize : Js.Val
}.

Record Order := {
  orderId : string;
  orderDate : string;
  totalAmount : Q;
  items : list OrderItem
}.

Record Customer := {
  id : string;
  name : string;
  email : string;
  status : string;
  revenue : Q;
  createdAt : string;
  orderCount : nat;
  lastOrderDate : option string;
  _orders : list Order
}.

(** The module-level array and the outside world. *)
Record State (W : Type) := {
  world : W;
  mockCustomers : list Customer
}.
Arguments world {W}.
Arguments mockCustomers {W}.

Definition itemNames : list string :=
  [ "Bespoke Linen Blazer"; "Custom Wool Suit"; "Tailored Cotton Shirt";
    "Designer Silk Dress"; "Premium Cashmere Coat";
    "Hand-stitched Leather Jacket"; "Classic Three-piece Suit";
    "Evening Gown"; "Business Formal Shirt"; "Wedding Dress" ].

Definition categories : list string :=
  [ "Jackets"; "Trousers"; "Dresses"; "Shirts"; "Suits" ].

Definition statuses : list string := [ "active"; "churned"; "prospect" ].

Definition num (z : Z) : Js.Val := Js.JNum (Js.Fin (inject_Z z)).

Section Generator.
Context {W : Type} `{Env W}.

(** [items.reduce((sum, item) => sum + item.price, 0)] *)
Definition sum_prices (xs : list OrderItem) : Q :=
  foldl (λ sum item, add sum (price item)) 0%Q xs.

(** [orders.reduce((sum, order) => sum + order.totalAmount, 0)] *)
Definition sum_totals (orders : list Order) : Q :=
  foldl (λ sum order, add sum (totalAmount order)) 0%Q orders.

Definition generateOrderItems : Gen W (list OrderItem) :=
  let* itemCount := number_int 1 5 in
  array_from itemCount (λ _,
    let* orderItemId := string_uuid in
    let* itemName := helpers_arrayElement itemNames in
    let* category := helpers_arrayElement categories in
    let* price := commerce_price 100 1000 in
    let* chest := number_int 30 50 in
    let* waist := number_int 28 48 in
    let* hips := number_int 30 50 in
    ret {| orderItemId := orderItemId; itemName := itemName;
           category := category; price := price;
           customSize := Js.JObj [("chest", num chest); ("waist", num waist);
                                  ("hips", num hips)] |}).

Definition generateOrders : Gen W (list Order) :=
  let* orderCount := number_int 0 10 in
  let* orders := array_from orderCount (λ _,
    let* items := generateOrderItems in
    let* orderId := string_uuid in
    let* days := number_int 1 365 in
    let* orderDate := days_ago days in
    ret {| orderId := orderId; orderDate := orderDate;
           totalAmount := sum_prices items; items := items |}) in
  ret (Js.sort (λ a b, getTime (orderDate a) - getTime (orderDate b)) orders).

(** [x || draw()] for an optional string argument [x]. *)
Definition or_else (x : option string) (draw : Gen W string) : Gen W string :=
  match x with
  | Some s => if (s =? "")%string then draw else ret s
  | None => draw
  end.

Definition createCustomerWithId (id : string) (name email : option string)
  : Gen W Customer :=
  let* orders := generateOrders in
  let* name := or_else name person_fullName in
  let* email := or_else email internet_email in
  let* status := helpers_arrayElement statuses in
  let* days := number_int 1 365 in
  let* createdAt := days_ago days in
  ret {| id := id; name := name; email := email; status := status;
         revenue := sum_totals orders; createdAt := createdAt;
         orderCount := length orders;
         lastOrderDate := orderDate <$> last orders;
         _orders := orders |}.

Definition knownCustomerIds : list string :=
  [ "a605ac61-d2cf-4051-b166-c4b4a0c45179";
    "924daa4b-39d8-4085-a29e-8332a1316633";
    "296879ac-1cd1-47c7-890e-5b5536787893";
    "b715bc72-e3de-4152-c277-d5c5b1d56280" ].

Definition createKnownCustomers : Gen W (list Customer) :=
  map_at 0 (λ id index,
    createCustomerWithId id
      (Some ("Test User " ++ pretty (index + 1)%nat)%string)
      (Some ("test" ++ pretty (index + 1)%nat ++ "@example.com")%string))
    knownCustomerIds.

Definition generateMockCustomers (count : Z) : Gen W (list Customer) :=
  let* knownCustomers := createKnownCustomers in
  let* randomCustomers := array_from count (λ i,
    let* orders := generateOrders in
    let* id := string_uuid in
    let* name := person_fullName in
    let* email := internet_email in
    let* status := helpers_arrayElement statuses in
    let* createdAt := days_ago (365 + Z.of_nat i) in
    ret {| id := id; name := name; email := email; status := status;
           revenue := sum_totals orders; createdAt := createdAt;
           orderCount := length orders;
           lastOrderDate := orderDate <$> last orders;
           _orders := orders |}) in
  ret (knownCustomers ++ randomCustomers).

(** [export const mockCustomers = generateMockCustomers(96)], evaluated
    when the module is loaded in the world [w]. *)
Definition init (w : W) : State W :=
  let '(customers, w') := generateMockCustomers 96 w in
  {| world := w'; mockCustomers := customers |}.

Definition getCustomerById (id' : string) (st : State W)
  : option Customer * State W :=
  match Js.find (λ c, id c =? id')%string (mockCustomers st) with
  | Some (_, customer) => (Some customer, st)
  | None =>
      let '(customer, w') :=
        createCustomerWithId id' (Some "Fallback Customer")
          (Some "fallback@example.com") (world st) in
      (Some customer,
       {| world := w'; mockCustomers := mockCustomers st ++ [customer] |})
  end.

End Generator.

(** [export const getCustomerSummary]: the customer without [_orders]. *)
Module Summary.
Record t := {
  id : string;
  name : string;
  email : string;
  status : string;
  revenue : Q;
  createdAt : string;
  orderCount : nat;
  lastOrderDate : option string
}.
End Summary.

Definition getCustomerSummary (customer : Customer) : Summary.t :=
  {| Summary.id := id customer; Summary.name := name customer;
     Summary.email := email customer; Summary.status := status customer;
     Summary.revenue := revenue customer;
     Summary.createdAt := createdAt customer;
     Summary.orderCount := orderCount customer;
     Summary.lastOrderDate := lastOrderDate customer |}.

(** Assignments to one field of an object. *)
Definition set_status (newStatus : string) (c : Customer) : Customer :=
  {| id := id c; name := name c; email := email c; status := newStatus;
     revenue := revenue c; createdAt := createdAt c;
     orderCount := orderCount c; lastOrderDate := lastOrderDate c;
     _orders := _orders c |}.

Definition set_customSize (size : Js.Val) (it : OrderItem) : OrderItem :=
  {| orderItemId := orderItemId it; itemName := itemName it;
     category := category it; price := price it; customSize := size |}.

(** What the assignment to an item does to the order and to the customer
    that hold it: their own fields stay, one element of the array they own
    is the updated object. *)
Definition set_item (k : nat) (it : OrderItem) (o : Order) : Order :=
  {| orderId := orderId o; orderDate := orderDate o;
     totalAmount := totalAmount o; items := <[k := it]> (items o) |}.

Definition set_order (j : nat) (o : Order) (c : Customer) : Customer :=
  {| id := id c; name := name c; email := email c; status := status c;
     revenue := revenue c; createdAt := createdAt c;
     orderCount := orderCount c; lastOrderDate := lastOrderDate c;
     _orders := <[j := o]> (_orders c) |}.

Section Store.
Context {W : Type}.

Definition set_customers (cs : list Customer) (st : State W) : State W :=
  {| world := world st; mockCustomers := cs |}.

Definition updateCustomerStatus (customerId : Js.Val) (newStatus : string)
    (st : State W) : bool * State W :=
  match Js.find (λ c, Js.strict_eq_str (id c) customerId) (mockCustomers st) with
  | Some (i, customer) =>
      (true,
       set_customers (<[i := set_status newStatus customer]> (mockCustomers st)) st)
  | None => (false, st)
  end.

Definition updateOrderItemSize (customerId : string)
    (orderId' orderItemId' customSize' : Js.Val) (st : State W)
  : bool * State W :=
  match Js.find (λ c, id c =? customerId)%string (mockCustomers st) with
  | None => (false, st)
  | Some (i, customer) =>
      match Js.find (λ o, Js.strict_eq_str (orderId o) orderId')
              (_orders customer) with
      | None => (false, st)
      | Some (j, order) =>
          match Js.find (λ item, Js.strict_eq_str (orderItemId item) orderItemId')
                  (items order) with
          | None => (false, st)
          | Some (k, orderItem) =>
              let orderItem := set_customSize customSize' orderItem in
              let order := set_item k orderItem order in
              let customer := set_order j order customer in
              (true, set_customers (<[i := customer]> (mockCustomers st)) st)
          end
      end
  end.

End Store.

End MockData.

(** ** Requests and responses of the API routes *)

Module Http.

(** A value of [req.query]: a string, or an array when the parameter is
    repeated. *)
Inductive QVal :=
| QStr (s : string)
| QArr (l : list string).

#[global] Instance QVal_eq_dec : EqDecision QVal.
Proof. solve_decision. Defined.

(** [String(v)] *)
Definition to_string (v : QVal) : string :=
  match v with
  | QStr s => s
  | QArr l => Js.join "," l
  end.

(** The pagination block after [res.json]: NaN and the infinities are
    serialised as [null] ([None]). *)
Record Pagination := {
  currentPage : option Z;
  totalPages : option Z;
  totalItems : nat;
  itemsPerPage : option Z
}.

Inductive Body :=
| Page (customers : list MockData.Summary.t) (pagination : Pagination)
| Updated (message : string) (customerId : Js.Val) (newStatus : string)
| Orders (orders : list MockData.Order)
| ItemUpdated (message : string) (updatedItem : option MockData.OrderItem)
| Error (error : string)
| End_ (text : string).

Record Response := {
  status : nat;
  headers : list (string * list string);
  body : Body
}.

Definition json (code : nat) (b : Body) : Response :=
  {| status := code; headers := []; body := b |}.

Definition not_allowed (method : string) : Response :=
  {| status := 405; headers := [("Allow", ["GET"; "PATCH"])];
     body := End_ ("Method " ++ method ++ " Not Allowed")%string |}.

End Http.

(** ** [pages/api/customers.ts] *)

Module Customers.
Import MockData Http.

Record Request := {
  method : string;
  query : gmap string QVal;
  body : Js.Val
}.

(** A value read from a customer by [a[sortBy]].  [FObj] is the array
    [_orders], kept as the string the relational operators convert it to.
    A key that is not a field of the customer reads [undefined], or a
    member of [Object.prototype] that every customer shares; either way
    neither [<] nor [>] holds between two such values, and both read as
    [FUndef]. *)
Inductive FieldVal :=
| FUndef
| FNull
| FStr (s : string)
| FNum (q : Q)
| FObj (s : string).

Definition field (key : string) (c : Customer) : FieldVal :=
  if (key =? "id")%string then FStr (id c)
  else if (key =? "name")%string then FStr (name c)
  else if (key =? "email")%string then FStr (email c)
  else if (key =? "status")%string then FStr (MockData.status c)
  else if (key =? "revenue")%string then FNum (revenue c)
  else if (key =? "createdAt")%string then FStr (createdAt c)
  else if (key =? "orderCount")%string then
    FNum (inject_Z (Z.of_nat (orderCount c)))
  else if (key =? "lastOrderDate")%string then
    match lastOrderDate c with Some d => FStr d | None => FNull end
  else if (key =? "_orders")%string then
    FObj (Js.join "," ((λ _, "[object Object]") <$> _orders c))
  else FUndef.

Definition num_lt (a b : Q) : bool :=
  match (a ?= b)%Q with Lt => true | _ => false end.

(** [a < b] on two values read from the same field.  The fields are typed,
    so the two values are of one kind ([field_kind] below); no other pair
    reaches the operator, and none makes [toLowerCase] throw. *)
Definition lt (a b : FieldVal) : bool :=
  match a, b with
  | FStr s, FStr t | FObj s, FObj t => Js.str_lt s t
  | FNum p, FNum q => num_lt p q
  | _, _ => false
  end.

(** [a > b] *)
Definition gt (a b : FieldVal) : bool := lt b a.

(** [v === s] for a value of the query and a string [s]. *)
Definition is_str (s : string) (v : QVal) : bool :=
  match v with
  | QStr t => (t =? s)%string
  | QArr _ => false
  end.

(** The comparator of the sort step. *)
Definition compare (sortBy : string) (order : QVal) (a b : Customer) : Z :=
  let aValue := field sortBy a in
  let bValue := field sortBy b in
  match aValue, bValue with
  | FNull, FNull => 0
  | FNull, _ => 1
  | _, FNull => -1
  | _, _ =>
      let '(aValue, bValue) :=
        match aValue, bValue with
        | FStr s, FStr t => (FStr (Js.toLowerCase s), FStr (Js.toLowerCase t))
        | _, _ => (aValue, bValue)
        end in
      let result :=
        if lt aValue bValue then -1 else if gt aValue bValue then 1 else 0 in
      if is_str "desc" order then - result else result
  end.

(** "Apply search filter" *)
Definition filterStep (search : QVal) (customers : list Customer)
  : list Customer :=
  match search with
  | QStr search =>
      if (search =? "")%string then customers
      else
        let searchLower := Js.toLowerCase search in
        List.filter (λ customer,
            Js.includes (Js.toLowerCase (name customer)) searchLower
            || Js.includes (Js.toLowerCase (email customer)) searchLower)
          customers
  | QArr _ => customers
  end.

(** "Apply sorting" *)
Definition sortStep (sortBy order : QVal) (customers : list Customer)
  : list Customer :=
  match sortBy with
  | QStr sortBy => Js.sort (compare sortBy order) customers
  | QArr _ => customers
  end.

(** Arithmetic on numbers that are integers or NaN ([None]): the integer
    here is the Number of the handler as long as it is a safe integer. *)

(** [Math.ceil(n / d)] after serialisation: the quotient is NaN or infinite
    when [d] is NaN or zero.  For the length [n] of an array and a safe
    integer [d] the rounding of the quotient does not reach an integer,
    so its ceiling is the ceiling of the exact quotient. *)
Definition ceil_div (n : Z) (d : option Z) : option Z :=
  match d with
  | None | Some 0 => None
  | Some d => Some (- ((- n) / d))
  end.

Definition mul (a b : option Z) : option Z :=
  match a, b with Some x, Some y => Some (x * y) | _, _ => None end.

Definition plus (a b : option Z) : option Z :=
  match a, b with Some x, Some y => Some (x + y) | _, _ => None end.

Definition sub (a b : option Z) : option Z :=
  match a, b with Some x, Some y => Some (x - y) | _, _ => None end.

Section Handler.
Context {W : Type}.

Definition get (req : Request) (st : State W) : Response :=
  let page := default (QStr "1") (query req !! "page") in
  let limit := default (QStr "10") (query req !! "limit") in
  let sortBy := default (QStr "name") (query req !! "sortBy") in
  let order := default (QStr "asc") (query req !! "order") in
  let search := default (QStr "") (query req !! "search") in
  let filteredCustomers := mockCustomers st in
  let filteredCustomers := filterStep search filteredCustomers in
  let filteredCustomers := sortStep sortBy order filteredCustomers in
  let pageNum := Js.parseInt (to_string page) in
  let limitNum := Js.parseInt (to_string limit) in
  let startIndex := mul (sub pageNum (Some 1)) limitNum in
  let endIndex := plus startIndex limitNum in
  let paginatedCustomers := Js.slice filteredCustomers startIndex endIndex in
  let customerSummaries := getCustomerSummary <$> paginatedCustomers in
  json 200 (Page customerSummaries
    {| currentPage := pageNum;
       totalPages := ceil_div (Z.of_nat (length filteredCustomers)) limitNum;
       totalItems := length filteredCustomers;
       itemsPerPage := limitNum |}).

Definition validStatuses : list string := [ "active"; "churned"; "prospect" ].

Definition patch (req : Request) (st : State W) : Response * State W :=
  match Js.get (body req) "customerId", Js.get (body req) "status" with
  | Some customerId, Some status =>
      if negb (Js.truthy customerId) || negb (Js.truthy status) then
        (json 400 (Error "Missing customerId or status"), st)
      else
        match Js.includes_str validStatuses status with
        | None =>
            (json 400 (Error ("Invalid status. Must be one of: "
                              ++ Js.join ", " validStatuses)%string), st)
        | Some status =>
            let '(success, st') := updateCustomerStatus customerId status st in
            if success then
              (json 200 (Updated "Customer status updated successfully"
                           customerId status), st')
            else (json 404 (Error "Customer not found"), st')
        end
  | _, _ => (json 500 (Error "Internal server error"), st)
  end.

Definition handler (req : Request) (st : State W) : Response * State W :=
  if (method req =? "GET")%string then (get req st, st)
  else if (method req =? "PATCH")%string then patch req st
  else (not_allowed (method req), st).

End Handler.

End Customers.

(** ** [pages/api/customers/[id]/orders.ts] *)

Module Orders.
Import MockData Http.

(** [id] is the segment of the route, [req.query.id]. *)
Record Request := {
  method : string;
  id : string;
  body : Js.Val
}.

Definition is_number (v : option Js.Val) : bool :=
  match Js.typeof <$> v with
  | Some Js.TNumber => true
  | _ => false
  end.

Section Handler.
Context {W : Type} `{Env W}.

Definition get (req : Request) (st : State W) : Response * State W :=
  let '(customer, st') := getCustomerById (id req) st in
  match customer with
  | None => (json 404 (Error "Customer not found"), st')
  | Some customer => (json 200 (Orders (_orders customer)), st')
  end.

Definition patch (req : Request) (st : State W) : Response * State W :=
  match Js.get (body req) "orderId", Js.get (body req) "orderItemId",
        Js.get (body req) "customSize" with
  | Some orderId', Some orderItemId', Some customSize' =>
      if negb (Js.truthy orderId') || negb (Js.truthy orderItemId')
         || negb (Js.truthy customSize') then
        (json 400 (Error "Missing required fields: orderId, orderItemId, customSize"), st)
      else if negb (is_number (Js.get customSize' "chest"))
              || negb (is_number (Js.get customSize' "waist"))
              || negb (is_number (Js.get customSize' "hips")) then
        (json 400 (Error "Invalid customSize format. Expected numbers for chest, waist, and hips."), st)
      else
        let '(success, st') :=
          updateOrderItemSize (id req) orderId' orderItemId' customSize' st in
        if success then
          let '(updatedCustomer, st'') := getCustomerById (id req) st' in
          let updatedOrder :=
            updatedCustomer ≫= λ c,
              snd <$> Js.find (λ o, Js.strict_eq_str (orderId o) orderId') (_orders c) in
          let updatedItem :=
            updatedOrder ≫= λ o,
              snd <$> Js.find (λ item, Js.strict_eq_str (orderItemId item) orderItemId')
                        (items o) in
          (json 200 (ItemUpdated "Order item updated successfully" updatedItem), st'')
        else
          (json 404 (Error "Customer, order, or order item not found"), st')
  | _, _, _ => (json 500 (Error "Internal server error"), st)
  end.

Definition handler (req : Request) (st : State W) : Response * State W :=
  if (method req =? "GET")%string then get req st
  else if (method req =? "PATCH")%string then patch req st
  else (not_allowed (method req), st).

End Handler.

End Orders.

(** ** The service as a whole *)

Module Service.
Import MockData Http.

Inductive Request :=
| ToCustomers (req : Customers.Request)
| ToOrders (req : Orders.Request).

Section Run.
Context {W : Type} `{Env W}.

Definition serve (req : Request) (st : State W) : Response * State W :=
  match req with
  | ToCustomers req => Customers.handler req st
  | ToOrders req => Orders.handler req st
  end.

(** The store after a sequence of requests, each handled to completion
    before the next. *)
Definition run (reqs : list Request) (st : State W) : State W :=
  foldl (λ st req, (serve req st).2) st reqs.

(** [totalAmount] is the sum of the prices of the items, summed as the
    generator sums them. *)
Definition order_ok (o : Order) : Prop := totalAmount o = sum_prices (items o).

Definition store_ok (cs : list Customer) : Prop :=
  ∀ c o, c ∈ cs → o ∈ _orders c → order_ok o.

End Run.

End Service.

(** ** Comparators *)

(** A consistent comparator, as ECMAScript requires of the argument of
    [sort] for the result to be determined. *)
Record consistent {A} (cmp : A → A → Z) : Prop := {
  cmp_refl : ∀ a, cmp a a = 0;
  cmp_antisym : ∀ a b, Z.sgn (cmp b a) = - Z.sgn (cmp a b);
  cmp_trans : ∀ a b c, cmp a b ≤ 0 → cmp b c ≤ 0 → cmp a c ≤ 0
}.

(** [ltb] orders its carrier strictly, and what it leaves unordered is
    equivalent. *)
Record strict_weak {T} (ltb : T → T → bool) : Prop := {
  ltb_irrefl : ∀ a, ltb a a = false;
  ltb_trans : ∀ a b c, ltb a b = true → ltb b c = true → ltb a c = true;
  ltb_cotrans : ∀ a b c, ltb a b = true → ltb a c = true ∨ ltb c b = true
}.

(** ** Predicates of the specification *)

Module Spec.

(** Section 4.1 of the specification: a measure of a [customSize] payload
    is valid when it is a finite non-negative number. *)
Definition valid_measure (v : option Js.Val) : bool :=
  match v with
  | Some (Js.JNum (Js.Fin q)) => Qle_bool 0 q
  | _ => false
  end.












End Spec.

(** ** A small world to run the service in *)

Module Demo.
Import MockData.

(** A counter stands for the state of the generator and of the clock. *)
#[global] Instance env : Env nat := {|
  number_int min max w := (min + Z.of_nat w mod (max - min + 1), S w);
  string_uuid w := (("uuid-" ++ pretty w)%string, S w);
  helpers_arrayElement array w :=
    (default "" (array !! (w mod length array)%nat), S w);
  commerce_price min max w :=
    (inject_Z (min + Z.of_nat w mod (max - min + 1)), S w);
  person_fullName w := (("Person " ++ pretty w)%string, S w);
  internet_email w := (("person" ++ pretty w ++ "@example.com")%string, S w);
  days_ago n w := (pretty (100000 - n), w);
  getTime s := default 0 (Js.parseInt s);
  add := Qplus
|}.

Definition item1 : OrderItem :=
  {| orderItemId := "item-1"; itemName := "Evening Gown";
     category := "Dresses"; price := 250%Q;
     customSize := Js.JObj [("chest", num 36); ("waist", num 30); ("hips", num 38)] |}.

Definition item2 : OrderItem :=
  {| orderItemId := "item-2"; itemName := "Custom Wool Suit";
     category := "Suits"; price := 700%Q;
     customSize := Js.JObj [("chest", num 42); ("waist", num 34); ("hips", num 40)] |}.

Definition order1 : Order :=
  {| orderId := "order-1"; orderDate := "99990"; totalAmount := (0 + 250 + 700)%Q;
     items := [item1; item2] |}.

Definition customer (id' name' status' : string) (orders : list Order)
  : Customer :=
  {| id := id'; name := name'; email := (id' ++ "@example.com")%string;
     status := status'; revenue := foldl (λ s o, s + totalAmount o)%Q 0%Q orders;
     createdAt := "99000"; orderCount := length orders;
     lastOrderDate := orderDate <$> last orders; _orders := orders |}.

Definition ann : Customer := customer "cust-1" "Ann" "active" [order1].
Definition bob : Customer := customer "cust-2" "bob" "active" [].
Definition cy : Customer := customer "cust-3" "Cy" "prospect" [].

Definition store : State nat := {| world := 0%nat; mockCustomers := [ann; bob; cy] |}.


(** PATCH /api/customers with the given body *)
Definition patch_status (body : Js.Val) : Customers.Request :=
  {| Customers.method := "PATCH"; Customers.query := ∅; Customers.body := body |}.

(** GET /api/customers/[id]/orders *)
Definition get_orders (id : string) : Orders.Request :=
  {| Orders.method := "GET"; Orders.id := id; Orders.body := Js.JUndef |}.

(** PATCH /api/customers/cust-1/orders for the first item of the first
    order, with the given [customSize] *)
Definition patch_size (customSize : Js.Val) : Orders.Request :=
  {| Orders.method := "PATCH"; Orders.id := "cust-1";
     Orders.body := Js.JObj [("orderId", Js.JStr "order-1");
                             ("orderItemId", Js.JStr "item-1");
                             ("customSize", customSize)] |}.

Definition negative_chest : Js.Val :=
  Js.JObj [("chest", num (-1)); ("waist", num 32); ("hips", num 38)].

End Demo.

(** ** [components/CustomerTable.tsx]: the calls the table makes

    Each callback is a function of the state cells it reads and of the
    store behind the API, and returns the cells it writes.  A [fetch] is
    the handler of the route run to completion; a query string built by
    [URLSearchParams] and a JSON body arrive as they were sent. *)

Module Fetch.
Import MockData Http.

(** [response.ok] *)
Definition ok (response : Response) : bool :=
  ((200 <=? status response) && (status response <=? 299))%nat.

(** [JSON.stringify] of a number: one that is not finite is sent as [null]. *)
Definition number (n : Js.Num) : Js.Val :=
  match n with
  | Js.Fin q => Js.JNum (Js.Fin q)
  | _ => Js.JNull
  end.

(** [JSON.parse(JSON.stringify(v))]: a value of a response as the caller
    reads it.  A number that is not finite is [null], a property whose
    value is [undefined] is left out and an [undefined] element of an
    array is [null]. *)
Fixpoint wire (v : Js.Val) : Js.Val :=
  match v with
  | Js.JNum (Js.Fin q) => Js.JNum (Js.Fin q)
  | Js.JNum _ => Js.JNull
  | Js.JArr l =>
      Js.JArr ((fix elements (l : list Js.Val) : list Js.Val :=
                  match l with
                  | [] => []
                  | Js.JUndef :: l' => Js.JNull :: elements l'
                  | x :: l' => wire x :: elements l'
                  end) l)
  | Js.JObj fields =>
      Js.JObj ((fix properties (fields : list (string * Js.Val))
                  : list (string * Js.Val) :=
                  match fields with
                  | [] => []
                  | (_, Js.JUndef) :: rest => properties rest
                  | (k, x) :: rest => (k, wire x) :: properties rest
                  end) fields)
  | _ => v
  end.

(** An order item and an order of a response as the caller reads them: the
    strings and the prices are finite and arrive as they are. *)
Definition item (it : OrderItem) : OrderItem :=
  set_customSize (wire (customSize it)) it.

Definition order (o : Order) : Order :=
  {| orderId := orderId o; orderDate := orderDate o;
     totalAmount := totalAmount o; items := item <$> items o |}.

(** The characters a path carries as they are: letters, digits, [-], [.],
    [_] and [~]. *)
Definition unreserved (c : ascii) : bool :=
  let n := nat_of_ascii c in
  ((48 <=? n) && (n <=? 57) || (65 <=? n) && (n <=? 90)
   || (97 <=? n) && (n <=? 122)
   || (n =? 45) || (n =? 46) || (n =? 95) || (n =? 126))%nat.

(** The [id] the route [/api/customers/[id]/orders] receives when
    [customerId] is written into the path as it is.  [None]: the id is
    empty, is a dot segment, or has a character that the URL parser or the
    router may read as something else ([/], [?], [#], [%], a space, ...);
    where such a request arrives is not modelled. *)
Definition segment (customerId : string) : option string :=
  if forallb unreserved (list_ascii_of_string customerId)
     && negb (customerId =? "")%string && negb (customerId =? ".")%string
     && negb (customerId =? "..")%string
  then Some customerId else None.

End Fetch.

Module CustomerTable.
Import MockData Http.

(** The cells [fetchCustomers] reads. *)
Record Params := {
  page : nat;
  rowsPerPage : nat;
  sortBy : string;
  sortOrder : string;
  debouncedSearchTerm : string
}.

(** [onPageChange={(_, newPage) => setPage(newPage)}] *)
Definition setPage (newPage : nat) (p : Params) : Params :=
  {| page := newPage; rowsPerPage := rowsPerPage p; sortBy := sortBy p;
     sortOrder := sortOrder p; debouncedSearchTerm := debouncedSearchTerm p |}.

(** The cells [fetchCustomers] writes.  [data.pagination] is read after
    [setCustomers]; every answer to a GET that is [ok] carries both. *)
Record Cells := {
  customers : list Summary.t;
  totalItems : nat;
  error : option string
}.

(** [new URLSearchParams({ page: (page + 1).toString(), ... })] *)
Definition params (p : Params) : gmap string QVal :=
  {[ "page" := QStr (pretty (page p + 1)%nat);
     "limit" := QStr (pretty (rowsPerPage p));
     "sortBy" := QStr (sortBy p);
     "order" := QStr (sortOrder p);
     "search" := QStr (debouncedSearchTerm p) ]}.

(** [{ ...c, status: editedStatus }] *)
Definition with_status (editedStatus : string) (c : Summary.t) : Summary.t :=
  {| Summary.id := Summary.id c; Summary.name := Summary.name c;
     Summary.email := Summary.email c; Summary.status := editedStatus;
     Summary.revenue := Summary.revenue c;
     Summary.createdAt := Summary.createdAt c;
     Summary.orderCount := Summary.orderCount c;
     Summary.lastOrderDate := Summary.lastOrderDate c |}.

Section Callbacks.
Context {W : Type}.

Definition fetchCustomers (p : Params) (cells : Cells) (st : State W)
  : Cells * State W :=
  let '(response, st') :=
    Customers.handler
      {| Customers.method := "GET"; Customers.query := params p;
         Customers.body := Js.JUndef |} st in
  let failed :=
    {| customers := customers cells; totalItems := totalItems cells;
       error := Some "Failed to load customers. Please try again." |} in
  if Fetch.ok response then
    match body response with
    | Page customers pagination =>
        ({| customers := customers; totalItems := Http.totalItems pagination;
            error := None |}, st')
    | _ => (failed, st')
    end
  else (failed, st').

(** [handleSave]: the rows and the error after the click, and the store. *)
Definition handleSave (customerId editedStatus : string)
    (customers : list Summary.t) (error : option string) (st : State W)
  : list Summary.t * option string * State W :=
  let '(response, st') :=
    Customers.handler
      {| Customers.method := "PATCH"; Customers.query := ∅;
         Customers.body := Js.JObj [("customerId", Js.JStr customerId);
                                    ("status", Js.JStr editedStatus)] |} st in
  if Fetch.ok response then
    ((λ c, if (Summary.id c =? customerId)%string
           then with_status editedStatus c else c) <$> customers,
     error, st')
  else
    (customers, Some "Failed to update customer status. Please try again.", st').

End Callbacks.

End CustomerTable.

(** ** [components/OrdersTable.tsx]: the calls the table of orders makes *)

Module OrdersTable.
Import MockData Http.

(** The cell [editingItem]. *)
Record EditingItem := {
  orderItemId' : string;
  chest : Js.Num;
  waist : Js.Num;
  hips : Js.Num
}.

(** [{ ...item, customSize: { chest, waist, hips } }] *)
Definition with_size (e : EditingItem) (item : OrderItem) : OrderItem :=
  set_customSize
    (Js.JObj [("chest", Js.JNum (chest e)); ("waist", Js.JNum (waist e));
              ("hips", Js.JNum (hips e))]) item.

(** [{ ...order, items: order.items.map(...) }] *)
Definition with_items (orderItemId : string) (e : EditingItem) (order : Order)
  : Order :=
  {| orderId := orderId order; orderDate := orderDate order;
     totalAmount := totalAmount order;
     items := (λ item, if (MockData.orderItemId item =? orderItemId)%string
                       then with_size e item else item) <$> items order |}.

Section Callbacks.
Context {W : Type} `{Env W}.

(** [fetchOrders], run by the effect when [customerId] is not empty: the
    orders, whether [error] is set, and the store after the fetch.  The id
    goes into the path as it is ([Fetch.segment]; [None] when the model
    does not follow it) and the orders are read from the JSON of the
    response.  The text of the error names the status text of the
    response, which is not modelled. *)
Definition fetchOrders (customerId : string) (orders : list Order)
    (error : bool) (st : State W) : option (list Order * bool * State W) :=
  if (customerId =? "")%string then Some (orders, error, st)
  else
    id ← Fetch.segment customerId;
    let '(response, st') :=
      Orders.handler
        {| Orders.method := "GET"; Orders.id := id;
           Orders.body := Js.JUndef |} st in
    Some (if Fetch.ok response then
            match body response with
            | Http.Orders orders => (Fetch.order <$> orders, false, st')
            | _ => ([], false, st')
            end
          else (orders, true, st')).

(** [errorData.error || 'Failed to update order item'] *)
Definition error_of (response : Response) : string :=
  match body response with
  | Error e => if (e =? "")%string then "Failed to update order item" else e
  | _ => "Failed to update order item"
  end.

(** [handleSave]: the orders and the error after the click, and the store.
    Without an item being edited nothing happens. *)
Definition handleSave (customerId orderId orderItemId : string)
    (editingItem : option EditingItem) (orders : list Order)
    (error : option string) (st : State W)
  : list Order * option string * State W :=
  match editingItem with
  | None => (orders, error, st)
  | Some e =>
      let '(response, st') :=
        Orders.handler
          {| Orders.method := "PATCH"; Orders.id := customerId;
             Orders.body :=
               Js.JObj [("orderId", Js.JStr orderId);
                        ("orderItemId", Js.JStr orderItemId);
                        ("customSize",
                         Js.JObj [("chest", Fetch.number (chest e));
                                  ("waist", Fetch.number (waist e));
                                  ("hips", Fetch.number (hips e))])] |} st in
      if Fetch.ok response then
        ((λ order, if (MockData.orderId order =? orderId)%string
                   then with_items orderItemId e order else order) <$> orders,
         None, st')
      else
        (orders,
         Some ("Failed to update order item: " ++ error_of response)%string, st')
  end.

End Callbacks.

End OrdersTable.

(** ** The tables over the small world *)

Module Screen.
Import MockData.

(** The first page of two rows, by name. *)
Definition params : CustomerTable.Params :=
  {| CustomerTable.page := 0; CustomerTable.rowsPerPage := 2;
     CustomerTable.sortBy := "name"; CustomerTable.sortOrder := "asc";
     CustomerTable.debouncedSearchTerm := "" |}.

Definition cells : CustomerTable.Cells :=
  {| CustomerTable.customers := []; CustomerTable.totalItems := 0;
     CustomerTable.error := None |}.

Definition editingItem : OrdersTable.EditingItem :=
  {| OrdersTable.orderItemId' := "item-1";
     OrdersTable.chest := Js.Fin (inject_Z 40);
     OrdersTable.waist := Js.Fin (inject_Z 32);
     OrdersTable.hips := Js.Fin (inject_Z 38) |}.

(** PATCH /api/customers: bob has churned *)
Definition churn : Customers.Request :=
  Demo.patch_status (Js.JObj [("customerId", Js.JStr "cust-2");
                              ("status", Js.JStr "churned")]).

(** GET /api/customers?page=abc *)
Definition page_abc : Customers.Request :=
  {| Customers.method := "GET";
     Customers.query := {[ "page" := Http.QStr "abc" ]};
     Customers.body := Js.JUndef |}.

(** Three customers whose orders by name, by revenue and by last order
    date all differ. *)
Definition row (id' name' : string) (revenue' : Z) (count : nat)
    (last : option string) : Customer :=
  {| id := id'; name := name'; email := (id' ++ "@example.com")%string;
     status := "active"; revenue := inject_Z revenue';
     createdAt := "2023-05-01"; orderCount := count;
     lastOrderDate := last; _orders := [] |}.


(** A chest that JSON reads as Infinity, as in [{"chest": 1e999, ...}]. *)
Definition endless_chest : Js.Val :=
  Js.JObj [("chest", Js.JNum (Js.Inf false)); ("waist", num 32);
           ("hips", num 38)].

End Screen.

(** ** What the store keeps true *)

Module Inv.
Import MockData.

(** The measures pass the check of the PATCH handler: [chest], [waist] and
    [hips] are of type number. *)
Definition size_ok (size : Js.Val) : bool :=
  Orders.is_number (Js.get size "chest")
  && Orders.is_number (Js.get size "waist")
  && Orders.is_number (Js.get size "hips").

Definition sizes_ok (c : Customer) : Prop :=
  ∀ o it, o ∈ _orders c → it ∈ items o → size_ok (customSize it) = true.

(** The measures are an object of finite numbers, as the generator draws
    them and as the table of orders sends them. *)
Definition finite_size (size : Js.Val) : bool :=
  match size with
  | Js.JObj fields =>
      forallb (λ field, match snd field with
                        | Js.JNum (Js.Fin _) => true
                        | _ => false
                        end) fields
  | _ => false
  end.

(** A customer without the two things a request can assign to: its status
    and the measures of its items. *)
Definition erase_item (it : OrderItem) : OrderItem := set_customSize Js.JUndef it.

Definition erase_order (o : Order) : Order :=
  {| orderId := orderId o; orderDate := orderDate o;
     totalAmount := totalAmount o; items := erase_item <$> items o |}.

Definition erase (c : Customer) : Customer :=
  {| id := id c; name := name c; email := email c; status := "";
     revenue := revenue c; createdAt := createdAt c;
     orderCount := orderCount c; lastOrderDate := lastOrderDate c;
     _orders := erase_order <$> _orders c |}.

Section Derived.
Context {W : Type} `{Env W}.

(** The orders come in the order of their dates. *)
Definition by_date (orders : list Order) : Prop :=
  StronglySorted (λ a b, getTime (orderDate a) ≤ getTime (orderDate b)) orders.

(** The summary fields of a customer say what its orders are. *)
Definition summary_ok (c : Customer) : Prop :=
  revenue c = sum_totals (_orders c)
  ∧ orderCount c = length (_orders c)
  ∧ lastOrderDate c = orderDate <$> last (_orders c)
  ∧ by_date (_orders c).

(** A customer as the generator makes it: its orders are generated orders
    and its summary fields are computed from them. *)
Definition fresh (c : Customer) : Prop :=
  (∃ w, _orders c = (generateOrders w).1)
  ∧ revenue c = sum_totals (_orders c)
  ∧ orderCount c = length (_orders c)
  ∧ lastOrderDate c = orderDate <$> last (_orders c).

End Derived.

End Inv.

(** * Properties *)

(** ** Request bodies *)

Section BodyFacts.
Import Js.

(** Destructuring either reads every property or throws. *)
Lemma get_is_Some (v : Val) (k k' : string) :
  is_Some (get v k) → is_Some (get v k').
Proof. destruct v; simpl; intros [x Hx]; eauto; discriminate. Qed.

(** A truthy value has properties to read: no access behind a truthiness
    test throws. *)
Lemma truthy_get (v : Val) (k : string) : truthy v = true → is_Some (get v k).
Proof. destruct v; simpl; intros; eauto; discriminate. Qed.

Lemma includes_str_Some (l : list string) (v : Val) (s : string) :
  includes_str l v = Some s ↔ v = JStr s ∧ s ∈ l.
Proof.
  destruct v; simpl; try (split; [discriminate | intros [? _]; discriminate]).
  case_bool_decide; split.
  - intros [= ->]. auto.
  - intros [[= ->] _]. reflexivity.
  - discriminate.
  - intros [[= ->] ?]. contradiction.
Qed.

Lemma strict_eq_str_true (s : string) (v : Val) :
  strict_eq_str s v = true ↔ v = JStr s.
Proof.
  destruct v; simpl; try (split; discriminate).
  rewrite String.eqb_eq. split; [intros -> | intros [= ->]]; reflexivity.
Qed.

Lemma find_None {A} (p : A → bool) (l : list A) :
  find p l = None ↔ ∀ x, x ∈ l → p x = false.
Proof.
  unfold find. rewrite list_find_None, Forall_forall.
  split; intros Hall x Hx; specialize (Hall x Hx); destruct (p x); congruence.
Qed.

Lemma find_Some {A} (p : A → bool) (l : list A) (i : nat) (x : A) :
  find p l = Some (i, x) ↔
  l !! i = Some x ∧ p x = true ∧ ∀ j y, l !! j = Some y → (j < i)%nat → p y = false.
Proof.
  unfold find. rewrite list_find_Some.
  split; intros (Hi & Hp & Hmin); (split; [exact Hi | split; [exact Hp |]]);
    intros j y Hj Hlt; specialize (Hmin j y Hj Hlt); destruct (p y); congruence.
Qed.

End BodyFacts.

(** ** PATCH /customers *)

Section PatchStatus.
Context {W : Type}.
Import MockData Http Customers.

(** C10: a body whose [customerId] or [status] is the empty string is
    answered 400 "Missing customerId or status" with the store untouched,
    before the status is validated or a customer looked up; an empty
    [customerId] therefore never yields a 404. *)
Theorem patch_empty_field_is_missing (req : Request) (st : State W) :
  method req = "PATCH" →
  Js.get (body req) "customerId" = Some (Js.JStr "")
  ∨ Js.get (body req) "status" = Some (Js.JStr "") →
  handler req st = (json 400 (Error "Missing customerId or status"), st)
  ∧ Http.status (handler req st).1 ≠ 404%nat.
Proof.
  intros Hm Hempty. unfold handler. rewrite Hm. simpl. unfold patch.
  assert (Hc : is_Some (Js.get (body req) "customerId"))
    by (destruct Hempty as [E | E]; [rewrite E; eauto |
        apply (get_is_Some _ "status"); rewrite E; eauto]).
  assert (Hs : is_Some (Js.get (body req) "status"))
    by (apply (get_is_Some _ "customerId"), Hc).
  destruct Hc as [c Hc], Hs as [s Hs]. rewrite Hc, Hs.
  assert (Hfalsy : negb (Js.truthy c) || negb (Js.truthy s) = true).
  { destruct Hempty as [E | E]; rewrite E in *; simplify_eq; simpl.
    - reflexivity.
    - apply orb_true_r. }
  rewrite Hfalsy. split; [reflexivity | simpl; lia].
Qed.

(** C7: with a [status] string outside active / churned / prospect the
    answer is 400 whatever the [customerId], and the store is the one
    before the request; a 404 is only answered for a valid status when no
    customer has the requested id, and it leaves the store as it was too. *)
Theorem patch_invalid_status_rejected (req : Request) (st : State W) :
  method req = "PATCH" →
  (∀ s, Js.get (body req) "status" = Some (Js.JStr s) →
        s ∉ validStatuses →
        Http.status (handler req st).1 = 400%nat ∧ (handler req st).2 = st)
  ∧ (Http.status (handler req st).1 = 404%nat →
     ∃ customerId s,
       Js.get (body req) "customerId" = Some customerId
       ∧ Js.get (body req) "status" = Some (Js.JStr s)
       ∧ s ∈ validStatuses
       ∧ (∀ c, c ∈ mockCustomers st → customerId ≠ Js.JStr (MockData.id c))
       ∧ (handler req st).2 = st).
Proof.
  intros Hm. unfold handler. rewrite Hm. simpl. unfold patch. split.
  - intros s Hs Hnot.
    destruct (get_is_Some _ "status" "customerId" (ex_intro _ _ Hs))
      as [customerId Hc].
    rewrite Hc, Hs.
    destruct (negb (Js.truthy customerId) || negb (Js.truthy (Js.JStr s)));
      [split; reflexivity |].
    destruct (Js.includes_str validStatuses (Js.JStr s)) as [s' |] eqn:Hinc;
      [| split; reflexivity].
    apply includes_str_Some in Hinc as [[= <-] Hin]. contradiction.
  - destruct (Js.get (body req) "customerId") as [customerId |];
      [| simpl; lia].
    destruct (Js.get (body req) "status") as [status |]; [| simpl; lia].
    destruct (negb (Js.truthy customerId) || negb (Js.truthy status));
      [simpl; lia |].
    destruct (Js.includes_str validStatuses status) as [s |] eqn:Hinc;
      [| simpl; lia].
    apply includes_str_Some in Hinc as [-> Hin].
    unfold updateCustomerStatus.
    destruct (Js.find _ (mockCustomers st)) as [[i c] |] eqn:Hfind;
      [simpl; lia |].
    intros _. exists customerId, s. repeat split; try assumption.
    intros c Hc ->. rewrite find_None in Hfind.
    specialize (Hfind c Hc). simpl in Hfind.
    rewrite String.eqb_refl in Hfind. discriminate.
Qed.

End PatchStatus.

(** ** [Array.prototype.sort] *)

Section SortFacts.
Context {A : Type} (cmp : A → A → Z).

Local Abbreviation le := (λ a b, cmp a b ≤ 0).
Local Abbreviation tie a := (λ b, cmp a b = 0).

Lemma insert_Permutation (x : A) (l : list A) : Js.insert cmp x l ≡ₚ x :: l.
Proof.
  induction l as [| y l IH]; simpl; [reflexivity |].
  destruct (cmp x y <=? 0); [reflexivity |].
  rewrite IH. apply Permutation_swap.
Qed.

Lemma sort_Permutation (l : list A) : Js.sort cmp l ≡ₚ l.
Proof.
  induction l as [| x l IH]; simpl; [reflexivity |].
  rewrite insert_Permutation, IH. reflexivity.
Qed.

Lemma sort_length (l : list A) : length (Js.sort cmp l) = length l.
Proof. apply Permutation_length, sort_Permutation. Qed.

Lemma sort_elem_of (y : A) (l : list A) : y ∈ Js.sort cmp l ↔ y ∈ l.
Proof. rewrite sort_Permutation. reflexivity. Qed.

Section Consistent.
Hypothesis Hcmp : consistent cmp.

Lemma cmp_gt_lt (a b : A) : 0 < cmp a b → cmp b a < 0.
Proof. intros Hgt. pose proof (cmp_antisym cmp Hcmp a b). lia. Qed.



Lemma insert_sorted (x : A) (l : list A) :
  StronglySorted le l → StronglySorted le (Js.insert cmp x l).
Proof.
  induction 1 as [| y l Hl IH Hy]; simpl.
  - repeat constructor.
  - destruct (cmp x y <=? 0) eqn:Hxy.
    + apply Z.leb_le in Hxy. constructor; [constructor; assumption |].
      constructor; [exact Hxy |].
      eapply Forall_impl; [exact Hy |]. simpl. intros z Hyz.
      apply (cmp_trans cmp Hcmp x y z); assumption.
    + apply Z.leb_gt in Hxy. constructor; [exact IH |].
      rewrite insert_Permutation. constructor; [| exact Hy].
      apply cmp_gt_lt in Hxy. lia.
Qed.

(** The result of [sort] is in the order of the comparator. *)
Lemma sort_sorted (l : list A) : StronglySorted le (Js.sort cmp l).
Proof.
  induction l as [| x l IH]; simpl; [constructor | apply insert_sorted, IH].
Qed.





End Consistent.
End SortFacts.

(** ** The comparator of the sort step *)

Section StringOrder.

Lemma ascii_compare_refl (x : ascii) : Ascii.compare x x = Eq.
Proof. apply N.compare_refl. Qed.

Lemma ascii_compare_trans (x y z : ascii) :
  Ascii.compare x y = Lt → Ascii.compare y z = Lt → Ascii.compare x z = Lt.
Proof. unfold Ascii.compare. rewrite !N.compare_lt_iff. lia. Qed.

Lemma str_compare_refl (s : string) : String.compare s s = Eq.
Proof.
  induction s as [| x s IH]; simpl; [reflexivity |].
  rewrite ascii_compare_refl. exact IH.
Qed.

Lemma str_compare_trans (a b c : string) :
  String.compare a b = Lt → String.compare b c = Lt → String.compare a c = Lt.
Proof.
  revert b c. induction a as [| x a IH]; intros [| y b] [| z c]; simpl;
    try discriminate; try reflexivity.
  destruct (Ascii.compare x y) eqn:Hxy, (Ascii.compare y z) eqn:Hyz;
    try discriminate; intros Hab Hbc.
  - apply Ascii.compare_eq_iff in Hxy as ->. rewrite Hyz. eauto.
  - apply Ascii.compare_eq_iff in Hxy as ->. rewrite Hyz. reflexivity.
  - apply Ascii.compare_eq_iff in Hyz as <-. rewrite Hxy. reflexivity.
  - rewrite (ascii_compare_trans x y z Hxy Hyz). reflexivity.
Qed.

Lemma str_lt_strict_weak : strict_weak Js.str_lt.
Proof.
  unfold Js.str_lt. split.
  - intros a. rewrite str_compare_refl. reflexivity.
  - intros a b c Hab Hbc.
    destruct (String.compare a b) eqn:Eab; try discriminate.
    destruct (String.compare b c) eqn:Ebc; try discriminate.
    rewrite (str_compare_trans a b c Eab Ebc). reflexivity.
  - intros a b c Hab.
    destruct (String.compare a b) eqn:Eab; try discriminate.
    destruct (String.compare a c) eqn:Eac; [right | left; reflexivity | right].
    + apply String.compare_eq_iff in Eac as <-. rewrite Eab. reflexivity.
    + assert (Eca : String.compare c a = Lt)
        by (rewrite String.compare_antisym, Eac; reflexivity).
      rewrite (str_compare_trans c a b Eca Eab). reflexivity.
Qed.

Lemma num_lt_true (p q : Q) : Customers.num_lt p q = true ↔ (p < q)%Q.
Proof.
  unfold Customers.num_lt. rewrite Qlt_alt.
  destruct (p ?= q)%Q; split; congruence.
Qed.

Lemma num_lt_strict_weak : strict_weak Customers.num_lt.
Proof.
  split.
  - intros a. destruct (Customers.num_lt a a) eqn:E; [| reflexivity].
    apply num_lt_true, Qlt_irrefl in E. contradiction.
  - intros a b c. rewrite !num_lt_true. apply Qlt_trans.
  - intros a b c. rewrite !num_lt_true. intros Hab.
    destruct (Qlt_le_dec a c) as [Hac | Hca]; [left; exact Hac | right].
    eapply Qle_lt_trans; eassumption.
Qed.

Lemma never_lt_strict_weak : strict_weak (λ _ _ : unit, false).
Proof. split; [reflexivity | discriminate | discriminate]. Qed.

End StringOrder.

Section ThreeWay.
Context {A T : Type} (ltb : T → T → bool) (desc : bool) (f : A → option T).
Hypothesis Hltb : strict_weak ltb.

Lemma ltb_asym (u v : T) : ltb u v = true → ltb v u = false.
Proof.
  intros Huv. destruct (ltb v u) eqn:Hvu; [| reflexivity].
  rewrite <- (ltb_irrefl ltb Hltb u). symmetry.
  eapply (ltb_trans ltb Hltb); eassumption.
Qed.

(** Nulls last, otherwise the three-way result of [ltb], negated for a
    descending order: a consistent comparator. *)
Lemma three_way_consistent :
  consistent (λ a b,
    match f a, f b with
    | None, None => 0
    | None, _ => 1
    | _, None => -1
    | Some u, Some v =>
        let result := if ltb u v then -1 else if ltb v u then 1 else 0 in
        if desc then - result else result
    end).
Proof.
  split.
  - intros a. destruct (f a) as [u |]; [| reflexivity].
    rewrite (ltb_irrefl ltb Hltb). destruct desc; reflexivity.
  - intros a b. destruct (f a) as [u |], (f b) as [v |]; try reflexivity.
    destruct (ltb u v) eqn:Huv.
    + rewrite (ltb_asym u v Huv). destruct desc; reflexivity.
    + destruct (ltb v u), desc; reflexivity.
  - intros a b c.
    destruct (f a) as [u |], (f b) as [v |], (f c) as [w |]; simpl; try lia.
    destruct desc.
    + destruct (ltb u w) eqn:Huw.
      * destruct (ltb_cotrans ltb Hltb u w v Huw) as [Huv | Hvw].
        -- rewrite Huv. simpl. lia.
        -- rewrite Hvw. simpl. lia.
      * destruct (ltb w u); lia.
    + destruct (ltb u w) eqn:Huw; [lia |].
      destruct (ltb w u) eqn:Hwu; [| lia].
      destruct (ltb_cotrans ltb Hltb w u v Hwu) as [Hwv | Hvu].
      * rewrite Hwv, (ltb_asym w v Hwv). destruct (ltb u v), (ltb v u); lia.
      * rewrite Hvu, (ltb_asym v u Hvu). lia.
Qed.

End ThreeWay.

Lemma consistent_ext {A} (cmp cmp' : A → A → Z) :
  (∀ a b, cmp a b = cmp' a b) → consistent cmp' → consistent cmp.
Proof.
  intros Hext [Hrefl Hanti Htrans]. split.
  - intros a. rewrite Hext. apply Hrefl.
  - intros a b. rewrite !Hext. apply Hanti.
  - intros a b c. rewrite !Hext. apply Htrans.
Qed.

(** ** The generator *)

(** Runs one draw of a generator computation that the goal scrutinises. *)
Ltac draw :=
  match goal with
  | |- context [let '(_, _) := ?m in _] => destruct m as [? ?] eqn:?
  end.

Section GeneratorFacts.
Context {W : Type} `{MockData.Env W}.
Import MockData Service.

Lemma array_from_at_Forall {A} (P : A → Prop) (f : nat → Gen W A) :
  (∀ i w, P (f i w).1) →
  ∀ n i w, Forall P (array_from_at i n f w).1.
Proof.
  intros Hf. induction n as [| n IH]; intros i w; simpl.
  - constructor.
  - unfold bind, ret. pose proof (Hf i w) as Hx.
    destruct (f i w) as [x w1]. pose proof (IH (S i) w1) as Hxs.
    destruct (array_from_at (S i) n f w1) as [xs w2]. simpl in *.
    constructor; assumption.
Qed.

Lemma map_at_Forall {A B} (P : B → Prop) (f : A → nat → Gen W B) :
  (∀ x i w, P (f x i w).1) →
  ∀ l i w, Forall P (map_at i f l w).1.
Proof.
  intros Hf. induction l as [| x l IH]; intros i w; simpl.
  - constructor.
  - unfold bind, ret. pose proof (Hf x i w) as Hx.
    destruct (f x i w) as [y w1]. pose proof (IH (S i) w1) as Hys.
    destruct (map_at (S i) f l w1) as [ys w2]. simpl in *.
    constructor; assumption.
Qed.

(** Every order leaves the generator with its total set to the sum of the
    prices of its items. *)
Lemma generateOrders_ok (w : W) : Forall order_ok (generateOrders w).1.
Proof.
  unfold generateOrders, bind, ret.
  destruct (number_int 0 10 w) as [orderCount w1].
  match goal with
  | |- context [array_from orderCount ?f w1] =>
      assert (Hall : Forall order_ok (array_from orderCount f w1).1)
        by (apply array_from_at_Forall; clear; intros _ w;
            unfold bind, ret; repeat draw; reflexivity)
  end.
  draw. simpl in *.
  apply Forall_forall. intros o Ho. apply sort_elem_of in Ho.
  rewrite Forall_forall in Hall. auto.
Qed.

Lemma createCustomerWithId_id (id' : string) (n e : option string) (w : W) :
  id (createCustomerWithId id' n e w).1 = id'.
Proof. unfold createCustomerWithId, bind, ret. repeat draw. reflexivity. Qed.

Lemma createCustomerWithId_ok (id' : string) (n e : option string) (w : W) :
  Forall order_ok (_orders (createCustomerWithId id' n e w).1).
Proof.
  unfold createCustomerWithId, bind, ret.
  pose proof (generateOrders_ok w) as Hok. repeat draw. exact Hok.
Qed.

Lemma generateMockCustomers_ok (count : Z) (w : W) :
  store_ok (generateMockCustomers count w).1.
Proof.
  assert (Hall : Forall (λ c, Forall order_ok (_orders c))
                   (generateMockCustomers count w).1).
  { unfold generateMockCustomers, bind, ret.
    pose proof (map_at_Forall (λ c, Forall order_ok (_orders c))
      (λ id index, createCustomerWithId id
         (Some ("Test User " ++ pretty (index + 1)%nat)%string)
         (Some ("test" ++ pretty (index + 1)%nat ++ "@example.com")%string))
      (λ x i w0, createCustomerWithId_ok x _ _ w0) knownCustomerIds 0%nat w)
      as Hknown.
    fold createKnownCustomers in Hknown.
    destruct (createKnownCustomers w) as [known w1]. simpl in Hknown.
    match goal with
    | |- context [array_from count ?f w1] =>
        pose proof (array_from_at_Forall (λ c, Forall order_ok (_orders c)) f)
          as Hrandom
    end.
    lapply Hrandom.
    - clear Hrandom. intros Hrandom.
      specialize (Hrandom (Z.to_nat count) 0%nat w1).
      unfold array_from. draw. simpl in *.
      apply Forall_app. split; assumption.
    - clear. intros i w. unfold bind, ret.
      pose proof (generateOrders_ok w) as Hok. repeat draw. exact Hok. }
  intros c o Hc Ho. rewrite Forall_forall in Hall.
  specialize (Hall c Hc). rewrite Forall_forall in Hall. auto.
Qed.

End GeneratorFacts.

(** ** The store *)

Section StoreFacts.
Context {W : Type}.
Import MockData Service.

(** Assigning to a field the predicate does not read keeps the element
    found where it is. *)
Lemma find_insert {A} (p : A → bool) (l : list A) (i : nat) (x x' : A) :
  Js.find p l = Some (i, x) → p x' = true →
  Js.find p (<[i := x']> l) = Some (i, x').
Proof.
  rewrite !find_Some. intros (Hi & _ & Hmin) Hp.
  split; [| split; [exact Hp |]].
  - apply list_lookup_insert_eq. eapply lookup_lt_Some, Hi.
  - intros j y Hj Hlt. apply (Hmin j y); [| exact Hlt].
    rewrite list_lookup_insert_ne in Hj by lia. exact Hj.
Qed.

Lemma find_elem_of {A} (p : A → bool) (l : list A) (i : nat) (x : A) :
  Js.find p l = Some (i, x) → x ∈ l.
Proof. rewrite find_Some. intros (Hi & _). eapply list_elem_of_lookup_2, Hi. Qed.

Lemma elem_of_insert {A} (l : list A) (i : nat) (x y : A) :
  y ∈ <[i := x]> l → y = x ∨ y ∈ l.
Proof.
  intros Hy. apply list_elem_of_lookup in Hy as [j Hj].
  destruct (decide (i = j)) as [-> | Hne].
  - destruct (decide (j < length l)%nat) as [Hlt | Hge].
    + rewrite list_lookup_insert_eq in Hj by exact Hlt. left. congruence.
    + rewrite list_insert_ge in Hj by lia. right. eapply list_elem_of_lookup_2, Hj.
  - rewrite list_lookup_insert_ne in Hj by exact Hne.
    right. eapply list_elem_of_lookup_2, Hj.
Qed.

Section Prices.
Context `{Env W}.

Lemma sum_prices_fmap (xs : list OrderItem) :
  sum_prices xs = foldl add 0%Q (price <$> xs).
Proof.
  unfold sum_prices. generalize 0%Q. induction xs as [| x xs IH]; intros q;
    simpl; [reflexivity | apply IH].
Qed.

(** Replacing the measures of one item leaves the sum of the prices. *)
Lemma sum_prices_set_customSize (xs : list OrderItem) (k : nat)
    (it : OrderItem) (size : Js.Val) :
  xs !! k = Some it →
  sum_prices (<[k := set_customSize size it]> xs) = sum_prices xs.
Proof.
  intros Hk. rewrite !sum_prices_fmap, list_fmap_insert. simpl.
  rewrite list_insert_id; [reflexivity |].
  rewrite list_lookup_fmap, Hk. reflexivity.
Qed.

Lemma getCustomerById_found (id' : string) (st : State W) (i : nat)
    (c : Customer) :
  Js.find (λ c, id c =? id')%string (mockCustomers st) = Some (i, c) →
  getCustomerById id' st = (Some c, st).
Proof. unfold getCustomerById. intros ->. reflexivity. Qed.

Lemma getCustomerById_missing (id' : string) (st : State W) :
  Js.find (λ c, id c =? id')%string (mockCustomers st) = None →
  ∃ c w',
    createCustomerWithId id' (Some "Fallback Customer")
      (Some "fallback@example.com") (world st) = (c, w')
    ∧ getCustomerById id' st
      = (Some c, {| world := w'; mockCustomers := mockCustomers st ++ [c] |}).
Proof.
  unfold getCustomerById. intros ->.
  destruct (createCustomerWithId _ _ _ _) as [c w']. eauto.
Qed.

(** [getCustomerById] never answers [undefined]. *)
Lemma getCustomerById_is_Some (id' : string) (st : State W) :
  is_Some (getCustomerById id' st).1.
Proof.
  unfold getCustomerById. destruct (Js.find _ _) as [[i c] |]; [simpl; eauto |].
  draw. simpl. eauto.
Qed.

Lemma getCustomerById_ok (id' : string) (st : State W) :
  store_ok (mockCustomers st) →
  store_ok (mockCustomers (getCustomerById id' st).2).
Proof.
  intros Hok. unfold getCustomerById.
  destruct (Js.find _ _) as [[i c] |]; [exact Hok |].
  pose proof (createCustomerWithId_ok id' (Some "Fallback Customer")
                (Some "fallback@example.com") (world st)) as Hnew.
  draw. simpl in *. intros c' o Hc Ho.
  apply elem_of_app in Hc as [Hc | Hc]; [eapply Hok; eassumption |].
  apply list_elem_of_singleton in Hc as ->.
  rewrite Forall_forall in Hnew. auto.
Qed.

Lemma updateCustomerStatus_ok (customerId : Js.Val) (s : string) (st : State W) :
  store_ok (mockCustomers st) →
  store_ok (mockCustomers (updateCustomerStatus customerId s st).2).
Proof.
  intros Hok. unfold updateCustomerStatus.
  destruct (Js.find _ _) as [[i c] |] eqn:Hfind; [| exact Hok].
  simpl. intros c' o Hc Ho. apply elem_of_insert in Hc as [-> | Hc].
  - simpl in Ho. eapply Hok; [eapply find_elem_of, Hfind | exact Ho].
  - eapply Hok; eassumption.
Qed.

Lemma updateOrderItemSize_ok (cid : string) (oid iid size : Js.Val)
    (st : State W) :
  store_ok (mockCustomers st) →
  store_ok (mockCustomers (updateOrderItemSize cid oid iid size st).2).
Proof.
  intros Hok. unfold updateOrderItemSize.
  destruct (Js.find _ (mockCustomers st)) as [[i c] |] eqn:Hc; [| exact Hok].
  destruct (Js.find _ (_orders c)) as [[j o] |] eqn:Ho; [| exact Hok].
  destruct (Js.find _ (items o)) as [[k it] |] eqn:Hit; [| exact Hok].
  simpl. intros c' o' Hc' Ho'.
  apply elem_of_insert in Hc' as [-> | Hc']; [| eapply Hok; eassumption].
  simpl in Ho'. apply elem_of_insert in Ho' as [-> | Ho'].
  - unfold order_ok. simpl. apply find_Some in Hit as (Hk & _).
    rewrite sum_prices_set_customSize by exact Hk.
    eapply Hok; eapply find_elem_of; eassumption.
  - eapply Hok; [eapply find_elem_of, Hc | exact Ho'].
Qed.

Lemma serve_ok (req : Request) (st : State W) :
  store_ok (mockCustomers st) → store_ok (mockCustomers (serve req st).2).
Proof.
  intros Hok. destruct req as [req | req]; simpl.
  - unfold Customers.handler.
    destruct (_ =? "GET")%string; [exact Hok |].
    destruct (_ =? "PATCH")%string; [| exact Hok].
    unfold Customers.patch.
    destruct (Js.get _ "customerId") as [cid |]; [| exact Hok].
    destruct (Js.get _ "status") as [s |]; [| exact Hok].
    destruct (_ || _); [exact Hok |].
    destruct (Js.includes_str _ _) as [s' |]; [| exact Hok].
    pose proof (updateCustomerStatus_ok cid s' st Hok) as Hup.
    destruct (updateCustomerStatus cid s' st) as [[] st']; exact Hup.
  - unfold Orders.handler.
    destruct (_ =? "GET")%string.
    { unfold Orders.get.
      pose proof (getCustomerById_ok (Orders.id req) st Hok) as Hget.
      destruct (getCustomerById _ st) as [[c |] st']; exact Hget. }
    destruct (_ =? "PATCH")%string; [| exact Hok].
    unfold Orders.patch.
    destruct (Js.get _ "orderId") as [oid |]; [| exact Hok].
    destruct (Js.get _ "orderItemId") as [iid |]; [| exact Hok].
    destruct (Js.get _ "customSize") as [size |]; [| exact Hok].
    destruct (_ || _); [exact Hok |].
    destruct (_ || _); [exact Hok |].
    pose proof (updateOrderItemSize_ok (Orders.id req) oid iid size st Hok) as Hup.
    destruct (updateOrderItemSize _ _ _ _ st) as [[] st']; [| exact Hup].
    pose proof (getCustomerById_ok (Orders.id req) st' Hup) as Hget.
    destruct (getCustomerById _ st') as [c st'']. exact Hget.
Qed.

End Prices.
End StoreFacts.

(** ** Editing the measures of an order item *)

Section OrderItemSize.
Context {W : Type} `{MockData.Env W}.
Import MockData Service.

Lemma init_ok (w : W) : store_ok (mockCustomers (init w)).
Proof.
  unfold init. pose proof (generateMockCustomers_ok 96 w) as Hok.
  draw. exact Hok.
Qed.

Lemma run_ok (reqs : list Request) (st : State W) :
  store_ok (mockCustomers st) → store_ok (mockCustomers (run reqs st)).
Proof.
  unfold run. revert st. induction reqs as [| req reqs IH]; intros st Hok;
    simpl; [exact Hok | apply IH, serve_ok, Hok].
Qed.

(** C4: a successful [updateOrderItemSize] replaces the [customSize] of the
    item it reached and nothing else: the item keeps its price and name,
    its siblings, the total of its order, the other orders and the other
    customers are as before.  So every order of the store has its
    [totalAmount] equal to the sum of the prices of its items, from the
    generated collection on and after any sequence of requests. *)
Theorem updateOrderItemSize_frame :
  (∀ (cid : string) (oid iid size : Js.Val) (st st' : State W),
     updateOrderItemSize cid oid iid size st = (true, st') →
     ∃ i c j o k it c' o' it',
       Js.find (λ c, id c =? cid)%string (mockCustomers st) = Some (i, c)
       ∧ Js.find (λ o, Js.strict_eq_str (orderId o) oid) (_orders c) = Some (j, o)
       ∧ Js.find (λ it, Js.strict_eq_str (orderItemId it) iid) (items o)
         = Some (k, it)
       ∧ mockCustomers st' !! i = Some c'
       ∧ _orders c' !! j = Some o'
       ∧ items o' !! k = Some it'
       ∧ customSize it' = size
       ∧ price it' = price it ∧ itemName it' = itemName it
       ∧ category it' = category it ∧ orderItemId it' = orderItemId it
       ∧ (∀ k', k' ≠ k → items o' !! k' = items o !! k')
       ∧ totalAmount o' = totalAmount o
       ∧ orderId o' = orderId o ∧ orderDate o' = orderDate o
       ∧ (∀ j', j' ≠ j → _orders c' !! j' = _orders c !! j')
       ∧ getCustomerSummary c' = getCustomerSummary c
       ∧ (∀ i', i' ≠ i → mockCustomers st' !! i' = mockCustomers st !! i')
       ∧ world st' = world st)
  ∧ (∀ (w : W) (reqs : list Request) (c : Customer) (o : Order),
       c ∈ mockCustomers (run reqs (init w)) → o ∈ _orders c →
       totalAmount o = sum_prices (items o)).
Proof.
  split.
  - intros cid oid iid size st st'. unfold updateOrderItemSize.
    destruct (Js.find _ (mockCustomers st)) as [[i c] |] eqn:Hc; [| discriminate].
    destruct (Js.find _ (_orders c)) as [[j o] |] eqn:Ho; [| discriminate].
    destruct (Js.find _ (items o)) as [[k it] |] eqn:Hit; [| discriminate].
    intros [= <-].
    pose proof Hc as (Hi & _)%find_Some. pose proof Ho as (Hj & _)%find_Some.
    pose proof Hit as (Hk & _)%find_Some.
    exists i, c, j, o, k, it.
    eexists (set_order j _ c), (set_item k _ o), (set_customSize size it).
    repeat split; simpl; try assumption.
    + apply list_lookup_insert_eq. eapply lookup_lt_Some, Hi.
    + apply list_lookup_insert_eq. eapply lookup_lt_Some, Hj.
    + apply list_lookup_insert_eq. eapply lookup_lt_Some, Hk.
    + intros k' Hne. apply list_lookup_insert_ne. congruence.
    + intros j' Hne. apply list_lookup_insert_ne. congruence.
    + intros i' Hne. apply list_lookup_insert_ne. congruence.
  - intros w reqs c o Hc Ho.
    exact (run_ok reqs (init w) (init_ok w) c o Hc Ho).
Qed.

End OrderItemSize.

(** ** /customers/[id]/orders *)

Section OrdersRoute.
Context {W : Type} `{MockData.Env W}.
Import MockData Http Orders.

Lemma find_by_id_None (id' : string) (cs : list Customer) :
  Js.find (λ c, MockData.id c =? id')%string cs = None
  ↔ ∀ c, c ∈ cs → MockData.id c ≠ id'.
Proof.
  rewrite find_None. split; intros Hall c Hc; specialize (Hall c Hc).
  - apply String.eqb_neq, Hall.
  - apply String.eqb_neq, Hall.
Qed.

Lemma find_snoc {A} (p : A → bool) (l : list A) (x : A) :
  Js.find p l = None → p x = true → Js.find p (l ++ [x]) = Some (length l, x).
Proof.
  intros Hnone Hp. apply find_Some. split; [| split; [exact Hp |]].
  - rewrite lookup_app_r, Nat.sub_diag by lia. reflexivity.
  - intros j y Hj Hlt. rewrite lookup_app_l in Hj by exact Hlt.
    rewrite find_None in Hnone. eapply Hnone, list_elem_of_lookup_2, Hj.
Qed.

(** C8: GET /customers/[id]/orders answers 200 with the orders of a
    customer of the requested id for every id, never 404:
    [getCustomerById] yields the customer of the collection when there is
    one and otherwise a generated one, which it appends to the
    collection. *)
Theorem get_orders_never_404 (req : Request) (st : State W) :
  method req = "GET" →
  is_Some (getCustomerById (id req) st).1
  ∧ Http.status (handler req st).1 = 200%nat
  ∧ ∃ c,
      Http.body (handler req st).1 = Http.Orders (_orders c)
      ∧ MockData.id c = id req
      ∧ ((c ∈ mockCustomers st ∧ (handler req st).2 = st)
         ∨ ((∀ c0, c0 ∈ mockCustomers st → MockData.id c0 ≠ id req)
            ∧ mockCustomers (handler req st).2 = mockCustomers st ++ [c])).
Proof.
  intros Hm. split; [apply getCustomerById_is_Some |].
  unfold handler. rewrite Hm. simpl. unfold get.
  destruct (Js.find (λ c, MockData.id c =? id req)%string (mockCustomers st))
    as [[i c] |] eqn:Hfind.
  - rewrite (getCustomerById_found _ _ _ _ Hfind). simpl.
    split; [reflexivity |]. exists c. split; [reflexivity |].
    pose proof (find_elem_of _ _ _ _ Hfind) as Hin.
    apply find_Some in Hfind as (_ & Hid & _). apply String.eqb_eq in Hid.
    auto.
  - destruct (getCustomerById_missing _ _ Hfind) as (c & w' & Hnew & ->).
    simpl. split; [reflexivity |]. exists c. split; [reflexivity |].
    split.
    + pose proof (createCustomerWithId_id (id req) (Some "Fallback Customer")
                    (Some "fallback@example.com") (world st)) as Hid.
      rewrite Hnew in Hid. exact Hid.
    + right. split; [apply find_by_id_None, Hfind | reflexivity].
Qed.

(** C9: for an id no customer of the collection has, two calls of
    [getCustomerById] return the same customer; the first call appends it,
    the second finds it where the first put it and appends nothing, so the
    collection has grown by one. *)
Theorem getCustomerById_twice (id' : string) (st : State W) :
  (∀ c, c ∈ mockCustomers st → MockData.id c ≠ id') →
  ∃ c st1,
    getCustomerById id' st = (Some c, st1)
    ∧ getCustomerById id' st1 = (Some c, st1)
    ∧ mockCustomers st1 = mockCustomers st ++ [c]
    ∧ length (mockCustomers st1) = S (length (mockCustomers st))
    ∧ Js.find (λ c, MockData.id c =? id')%string (mockCustomers st1)
      = Some (length (mockCustomers st), c).
Proof.
  intros Hnew. apply find_by_id_None in Hnew.
  destruct (getCustomerById_missing _ _ Hnew) as (c & w' & Hc & Hget).
  assert (Hfind : Js.find (λ c, MockData.id c =? id')%string
                    (mockCustomers st ++ [c])
                  = Some (length (mockCustomers st), c)).
  { apply find_snoc; [exact Hnew |]. apply String.eqb_eq.
    pose proof (createCustomerWithId_id id' (Some "Fallback Customer")
                  (Some "fallback@example.com") (world st)) as Hid.
    rewrite Hc in Hid. exact Hid. }
  eexists c, _. split; [exact Hget |]. simpl.
  split; [| split; [reflexivity | split; [| exact Hfind]]].
  - eapply getCustomerById_found. simpl. exact Hfind.
  - rewrite length_app. simpl. lia.
Qed.

(** C5, as the handler has it: PATCH /customers/[id]/orders answers 400 and
    leaves the store alone whenever one of [chest], [waist], [hips] of
    [customSize] is missing or is not of type number; it goes on to the
    store only when the three are numbers, and then for any number, a
    negative, NaN or infinite one included: the answer is 200 or 404 as
    [updateOrderItemSize] succeeds or not, and the store is the one it
    leaves. *)
Theorem patch_size_checks_number_type (req : Request) (st : State W)
    (orderId' orderItemId' customSize' : Js.Val) :
  method req = "PATCH" →
  Js.get (body req) "orderId" = Some orderId' →
  Js.get (body req) "orderItemId" = Some orderItemId' →
  Js.get (body req) "customSize" = Some customSize' →
  let numbers :=
    is_number (Js.get customSize' "chest")
    && is_number (Js.get customSize' "waist")
    && is_number (Js.get customSize' "hips") in
  let lookup := updateOrderItemSize (id req) orderId' orderItemId' customSize' st in
  (numbers = false →
     Http.status (handler req st).1 = 400%nat ∧ (handler req st).2 = st)
  ∧ (Http.status (handler req st).1 ≠ 400%nat → numbers = true)
  ∧ (Js.truthy orderId' = true → Js.truthy orderItemId' = true →
     numbers = true →
     Http.status (handler req st).1 = (if lookup.1 then 200 else 404)%nat
     ∧ (handler req st).2 = lookup.2).
Proof.
  intros Hm Ho Hi Hs numbers lookup. unfold handler. rewrite Hm. simpl.
  unfold patch. rewrite Ho, Hi, Hs.
  destruct (negb (Js.truthy orderId') || negb (Js.truthy orderItemId')
            || negb (Js.truthy customSize')) eqn:Hmissing.
  { simpl. split; [auto |]. split; [intros Hne; contradiction |].
    intros Hto Hti Hnum. rewrite Hto, Hti in Hmissing. simpl in Hmissing.
    apply negb_true_iff in Hmissing.
    subst numbers. destruct customSize'; simpl in *; discriminate. }
  destruct (negb (is_number (Js.get customSize' "chest"))
            || negb (is_number (Js.get customSize' "waist"))
            || negb (is_number (Js.get customSize' "hips"))) eqn:Hformat.
  { assert (Hnum : numbers = false).
    { subst numbers. destruct (is_number (Js.get customSize' "chest")),
        (is_number (Js.get customSize' "waist")),
        (is_number (Js.get customSize' "hips")); simpl in *; congruence. }
    simpl. split; [auto |]. split; [intros Hne; contradiction |].
    intros _ _ Hnum'. congruence. }
  assert (Hnum : numbers = true).
  { subst numbers. destruct (is_number (Js.get customSize' "chest")),
      (is_number (Js.get customSize' "waist")),
      (is_number (Js.get customSize' "hips")); simpl in *; congruence. }
  split; [intros Hnum'; congruence |]. split; [intros _; exact Hnum |].
  intros _ _ _. subst lookup.
  destruct (updateOrderItemSize _ _ _ _ st) as [[] st'] eqn:Hup; simpl;
    [| split; reflexivity].
  assert (Hfound : ∃ i c, Js.find (λ c, MockData.id c =? id req)%string
                     (mockCustomers st') = Some (i, c)).
  { revert Hup. unfold updateOrderItemSize.
    destruct (Js.find _ (mockCustomers st)) as [[i c] |] eqn:Hc; [| discriminate].
    destruct (Js.find _ (_orders c)) as [[j o] |]; [| discriminate].
    destruct (Js.find _ (items o)) as [[k it] |]; [| discriminate].
    intros [= <-]. simpl. eexists i, _. eapply find_insert; [exact Hc |].
    simpl. apply find_Some in Hc as (_ & Hid & _). exact Hid. }
  destruct Hfound as (i & c & Hfound).
  rewrite (getCustomerById_found _ _ _ _ Hfound). simpl. split; reflexivity.
Qed.

End OrdersRoute.

(** ** GET /customers: the sort step *)

Section SortStep.
Import MockData Http Customers.


Lemma elem_of_rev {A} (x : A) (l : list A) : x ∈ rev l ↔ x ∈ l.
Proof. rewrite !list_elem_of_In. symmetry. apply in_rev. Qed.

Lemma StronglySorted_rev {A} (R R' : relation A) (l : list A) :
  (∀ x y, x ∈ l → y ∈ l → R x y → R' y x) →
  StronglySorted R l → StronglySorted R' (rev l).
Proof.
  intros Hflip Hl. induction Hl as [| x l Hl IH Hx]; simpl; [constructor |].
  apply StronglySorted_app. split; [| split].
  - intros y z Hy Hz. apply list_elem_of_singleton in Hz as ->.
    rewrite elem_of_rev in Hy.
    rewrite Forall_forall in Hx.
    apply Hflip; [left | right; exact Hy | auto].
  - apply IH. intros y z Hy Hz. apply Hflip; right; assumption.
  - repeat constructor.
Qed.

(** The values two customers have under one key are of one kind, null
    apart: the operators of the comparator never meet a mixed pair. *)
Lemma field_kind (sortKey : string) (a b : Customer) :
  match field sortKey a, field sortKey b with
  | FUndef, FUndef | FStr _, FStr _ | FNum _, FNum _ | FObj _, FObj _
  | FNull, (FNull | FStr _) | FStr _, FNull => True
  | _, _ => False
  end.
Proof.
  unfold field.
  repeat (match goal with
          | |- context [if (sortKey =? ?k)%string then _ else _] =>
              destruct (sortKey =? k)%string; [exact I |]
          end); try exact I.
  destruct (sortKey =? "lastOrderDate")%string;
    [destruct (lastOrderDate a), (lastOrderDate b); exact I |].
  repeat (match goal with
          | |- context [if (sortKey =? ?k)%string then _ else _] =>
              destruct (sortKey =? k)%string; [exact I |]
          end); exact I.
Qed.

(** For each key the comparator is a three-way comparison of one projection
    of the customers, nulls last. *)
Lemma compare_shape (sortKey : string) (order : QVal) :
  ∃ (T : Type) (ltb : T → T → bool) (f : Customer → option T),
    strict_weak ltb
    ∧ ∀ a b,
        compare sortKey order a b =
        match f a, f b with
        | None, None => 0
        | None, _ => 1
        | _, None => -1
        | Some u, Some v =>
            let result := if ltb u v then -1 else if ltb v u then 1 else 0 in
            if is_str "desc" order then - result else result
        end.
Proof.
  unfold compare, field.
  destruct (sortKey =? "id")%string.
  { exists string, Js.str_lt, (λ c, Some (Js.toLowerCase (id c))).
    split; [apply str_lt_strict_weak | reflexivity]. }
  destruct (sortKey =? "name")%string.
  { exists string, Js.str_lt, (λ c, Some (Js.toLowerCase (name c))).
    split; [apply str_lt_strict_weak | reflexivity]. }
  destruct (sortKey =? "email")%string.
  { exists string, Js.str_lt, (λ c, Some (Js.toLowerCase (email c))).
    split; [apply str_lt_strict_weak | reflexivity]. }
  destruct (sortKey =? "status")%string.
  { exists string, Js.str_lt, (λ c, Some (Js.toLowerCase (MockData.status c))).
    split; [apply str_lt_strict_weak | reflexivity]. }
  destruct (sortKey =? "revenue")%string.
  { exists Q, num_lt, (λ c, Some (revenue c)).
    split; [apply num_lt_strict_weak | reflexivity]. }
  destruct (sortKey =? "createdAt")%string.
  { exists string, Js.str_lt, (λ c, Some (Js.toLowerCase (createdAt c))).
    split; [apply str_lt_strict_weak | reflexivity]. }
  destruct (sortKey =? "orderCount")%string.
  { exists Q, num_lt, (λ c, Some (inject_Z (Z.of_nat (orderCount c)))).
    split; [apply num_lt_strict_weak | reflexivity]. }
  destruct (sortKey =? "lastOrderDate")%string.
  { exists string, Js.str_lt, (λ c, Js.toLowerCase <$> lastOrderDate c).
    split; [apply str_lt_strict_weak |].
    intros a b. destruct (lastOrderDate a), (lastOrderDate b); reflexivity. }
  destruct (sortKey =? "_orders")%string.
  { exists string, Js.str_lt,
      (λ c, Some (Js.join "," ((λ _, "[object Object]") <$> _orders c))).
    split; [apply str_lt_strict_weak | reflexivity]. }
  exists unit, (λ _ _, false), (λ _, Some tt).
  split; [apply never_lt_strict_weak | reflexivity].
Qed.

(** The comparator is consistent for every key and direction, so the order
    [sort] leaves does not depend on the engine. *)
Lemma compare_consistent (sortKey : string) (order : QVal) :
  consistent (compare sortKey order).
Proof.
  destruct (compare_shape sortKey order) as (T & ltb & f & Hltb & Hext).
  eapply consistent_ext; [exact Hext | apply three_way_consistent, Hltb].
Qed.

Lemma compare_null_l (sortKey : string) (order : QVal) (a b : Customer) :
  field sortKey a = FNull → field sortKey b ≠ FNull →
  compare sortKey order a b = 1.
Proof.
  unfold compare. intros -> Hb. destruct (field sortKey b); congruence.
Qed.

Lemma compare_null_r (sortKey : string) (order : QVal) (a b : Customer) :
  field sortKey a ≠ FNull → field sortKey b = FNull →
  compare sortKey order a b = -1.
Proof.
  unfold compare. intros Ha ->. destruct (field sortKey a); congruence.
Qed.

Lemma compare_desc (sortKey : string) (a b : Customer) :
  field sortKey a ≠ FNull → field sortKey b ≠ FNull →
  compare sortKey (QStr "desc") a b = - compare sortKey (QStr "asc") a b.
Proof.
  unfold compare. intros Ha Hb.
  destruct (field sortKey a), (field sortKey b); try congruence; reflexivity.
Qed.

(** C6, for a collection without ties: when no customer has a null value
    under [sortKey] and no two different customers compare equal, the
    [desc] order is the [asc] order reversed. *)
Theorem desc_reverses_asc (sortKey : string) (customers : list Customer) :
  (∀ a, a ∈ customers → field sortKey a ≠ FNull) →
  (∀ a b, a ∈ customers → b ∈ customers →
          compare sortKey (QStr "asc") a b = 0 → a = b) →
  sortStep (QStr sortKey) (QStr "desc") customers
  = rev (sortStep (QStr sortKey) (QStr "asc") customers).
Proof.
  intros Hnull Hties. simpl.
  pose proof (compare_consistent sortKey (QStr "desc")) as Hdesc.
  pose proof (compare_consistent sortKey (QStr "asc")) as Hasc.
  assert (Hin_asc : ∀ a, a ∈ Js.sort (compare sortKey (QStr "asc")) customers
                         → a ∈ customers) by (intros a; apply sort_elem_of).
  apply (StronglySorted_unique_strong
           (λ a b, compare sortKey (QStr "desc") a b ≤ 0)).
  - intros a b Ha Hb Hab Hba.
    apply sort_elem_of in Ha.
    rewrite elem_of_rev in Hb.
    apply Hin_asc in Hb. apply Hties; [assumption.. |].
    pose proof (cmp_antisym _ Hdesc a b).
    rewrite compare_desc in Hab by auto. rewrite compare_desc in Hba by auto.
    pose proof (cmp_antisym _ Hasc a b). lia.
  - apply sort_sorted, Hdesc.
  - eapply StronglySorted_rev; [| apply sort_sorted, Hasc].
    simpl. intros a b Ha Hb Hab. apply Hin_asc in Ha, Hb.
    rewrite compare_desc by auto.
    pose proof (cmp_antisym _ Hasc a b). lia.
  - rewrite <- Permutation_rev, !sort_Permutation. reflexivity.
Qed.

End SortStep.

(** ** GET /customers: the filter step and the page *)

Section QueryPipeline.
Context {W : Type}.
Import MockData Http Customers.




Lemma sortStep_Permutation (sortBy order : QVal) (cs : list Customer) :
  sortStep sortBy order cs ≡ₚ cs.
Proof. destruct sortBy; simpl; [apply sort_Permutation | reflexivity]. Qed.


(** [toLowerCase] against the alphabet of the specification *)

Section CaseFolding.








End CaseFolding.


Lemma sortStep_length (sortBy order : QVal) (cs : list Customer) :
  length (sortStep sortBy order cs) = length cs.
Proof. apply Permutation_length, sortStep_Permutation. Qed.

(** [slice] between two indices that are not negative. *)
Lemma slice_take_drop {A} (l : list A) (start count : Z) :
  0 ≤ start → 0 ≤ count →
  Js.slice l (Some start) (Some (start + count))
  = take (Z.to_nat count) (drop (Z.to_nat start) l).
Proof.
  intros Hstart Hcount. unfold Js.slice, Js.clamp_index.
  destruct (start <? 0) eqn:E1; [apply Z.ltb_lt in E1; lia |].
  destruct (start + count <? 0) eqn:E2; [apply Z.ltb_lt in E2; lia |].
  destruct (decide (Z.of_nat (length l) ≤ start)) as [Hout | Hin].
  - rewrite !drop_ge by lia. destruct (_ - _)%nat, (Z.to_nat count); reflexivity.
  - replace (Z.to_nat (Z.min start (Z.of_nat (length l)))) with (Z.to_nat start)
      by lia.
    destruct (decide (start + count ≤ Z.of_nat (length l))) as [Hfit | Hcut].
    + f_equal. lia.
    + rewrite !take_ge; [reflexivity | rewrite length_drop; lia..].
Qed.



End QueryPipeline.

(** ** The properties at work on a store of three customers *)

Section Instances.
Import MockData Http.



(** New measures for the first item of ann's order. *)
Lemma updateOrderItemSize_frame_witness :
  ∃ st',
    updateOrderItemSize "cust-1" (Js.JStr "order-1") (Js.JStr "item-1")
      Demo.negative_chest Demo.store = (true, st')
    ∧ world st' = world Demo.store.
Proof.
  eexists. split; [reflexivity |].
  destruct (proj1 (updateOrderItemSize_frame (W := nat)) "cust-1"
              (Js.JStr "order-1") (Js.JStr "item-1") Demo.negative_chest
              Demo.store _ eq_refl)
    as (i & c & j & o & k & it & c' & o' & it' & Hframe).
  apply Hframe.
Defined.

(** C5 as the specification has it fails: a negative chest is not a valid
    measure, yet the request is not answered 400; the lookup runs, the item
    is found and now carries the negative measure. *)
Lemma negative_measure_accepted :
  Spec.valid_measure (Js.get Demo.negative_chest "chest") = false
  ∧ Http.status (Orders.handler (Demo.patch_size Demo.negative_chest) Demo.store).1
    = 200%nat
  ∧ Http.body (Orders.handler (Demo.patch_size Demo.negative_chest) Demo.store).1
    = ItemUpdated "Order item updated successfully"
        (Some (set_customSize Demo.negative_chest Demo.item1)).
Proof. vm_compute. auto. Qed.

(** Without a body there is nothing to validate: destructuring throws and
    the answer is 500. *)
Lemma patch_size_without_body :
  Http.status (Orders.handler
                 {| Orders.method := "PATCH"; Orders.id := "cust-1";
                    Orders.body := Js.JUndef |} Demo.store).1 = 500%nat.
Proof. reflexivity. Qed.

(** A chest given as a string is refused. *)
Lemma patch_size_checks_number_type_witness :
  Http.status (Orders.handler (Demo.patch_size (Js.JObj [("chest", Js.JStr "40")]))
                 Demo.store).1 = 400%nat
  ∧ (Orders.handler (Demo.patch_size (Js.JObj [("chest", Js.JStr "40")]))
       Demo.store).2 = Demo.store.
Proof.
  apply (patch_size_checks_number_type
           (Demo.patch_size (Js.JObj [("chest", Js.JStr "40")])) Demo.store
           (Js.JStr "order-1") (Js.JStr "item-1")
           (Js.JObj [("chest", Js.JStr "40")])); reflexivity.
Defined.

(** C6 as the specification has it fails: ann and bob are both active, and
    they keep their input order in both directions.  So does bob, who has
    no last order, behind ann, who has one. *)
Lemma desc_is_not_reversed_asc :
  Customers.sortStep (QStr "status") (QStr "asc") [Demo.ann; Demo.bob; Demo.cy]
  = [Demo.ann; Demo.bob; Demo.cy]
  ∧ Customers.sortStep (QStr "status") (QStr "desc") [Demo.ann; Demo.bob; Demo.cy]
    = [Demo.cy; Demo.ann; Demo.bob]
  ∧ Customers.sortStep (QStr "status") (QStr "desc") [Demo.ann; Demo.bob; Demo.cy]
    ≠ rev (Customers.sortStep (QStr "status") (QStr "asc")
             [Demo.ann; Demo.bob; Demo.cy])
  ∧ Customers.sortStep (QStr "lastOrderDate") (QStr "desc") [Demo.ann; Demo.bob]
    = [Demo.ann; Demo.bob]
  ∧ Customers.sortStep (QStr "lastOrderDate") (QStr "desc") [Demo.ann; Demo.bob]
    ≠ rev (Customers.sortStep (QStr "lastOrderDate") (QStr "asc")
             [Demo.ann; Demo.bob]).
Proof.
  split; [reflexivity |]. split; [reflexivity |].
  split; [vm_compute; discriminate |]. split; [reflexivity |].
  vm_compute. discriminate.
Qed.

(** The three names differ, and none is null. *)
Lemma desc_reverses_asc_witness :
  Customers.sortStep (QStr "name") (QStr "desc") [Demo.ann; Demo.bob; Demo.cy]
  = rev (Customers.sortStep (QStr "name") (QStr "asc")
           [Demo.ann; Demo.bob; Demo.cy]).
Proof.
  apply desc_reverses_asc.
  - intros a Ha. repeat (apply elem_of_cons in Ha as [-> | Ha]);
      [discriminate.. | inversion Ha].
  - intros a b Ha Hb.
    repeat (apply elem_of_cons in Ha as [-> | Ha]); [.. | inversion Ha];
      (repeat (apply elem_of_cons in Hb as [-> | Hb]); [.. | inversion Hb]);
      vm_compute; congruence.
Defined.

(** "vip" is not a status. *)
Lemma patch_invalid_status_rejected_witness :
  Http.status (Customers.handler
                 (Demo.patch_status (Js.JObj [("customerId", Js.JStr "cust-1");
                                              ("status", Js.JStr "vip")]))
                 Demo.store).1 = 400%nat
  ∧ (Customers.handler
       (Demo.patch_status (Js.JObj [("customerId", Js.JStr "cust-1");
                                    ("status", Js.JStr "vip")]))
       Demo.store).2 = Demo.store.
Proof.
  apply (proj1 (patch_invalid_status_rejected
                  (Demo.patch_status (Js.JObj [("customerId", Js.JStr "cust-1");
                                               ("status", Js.JStr "vip")]))
                  Demo.store eq_refl) "vip"); [reflexivity |].
  intros Hin. repeat (apply elem_of_cons in Hin as [Hin | Hin]; [discriminate |]).
  inversion Hin.
Defined.

(** The orders of a customer nobody has heard of. *)
Lemma get_orders_never_404_witness :
  Http.status (Orders.handler (Demo.get_orders "no-such-id") Demo.store).1
  = 200%nat.
Proof.
  apply (get_orders_never_404 (Demo.get_orders "no-such-id") Demo.store).
  reflexivity.
Defined.

(** Asking twice for that customer. *)
Lemma getCustomerById_twice_witness :
  ∃ c st1,
    getCustomerById "no-such-id" Demo.store = (Some c, st1)
    ∧ getCustomerById "no-such-id" st1 = (Some c, st1)
    ∧ length (mockCustomers st1) = 4%nat.
Proof.
  destruct (getCustomerById_twice "no-such-id" Demo.store)
    as (c & st1 & Hfirst & Hsecond & _ & Hlength & _).
  - intros c Hc. repeat (apply elem_of_cons in Hc as [-> | Hc]);
      [discriminate.. | inversion Hc].
  - exists c, st1. split; [exact Hfirst |]. split; [exact Hsecond | exact Hlength].
Defined.

(** An empty [customerId] with a valid status. *)
Lemma patch_empty_field_is_missing_witness :
  Customers.handler
    (Demo.patch_status (Js.JObj [("customerId", Js.JStr "");
                                 ("status", Js.JStr "active")]))
    Demo.store
  = (json 400 (Error "Missing customerId or status"), Demo.store).
Proof.
  apply (patch_empty_field_is_missing
           (Demo.patch_status (Js.JObj [("customerId", Js.JStr "");
                                        ("status", Js.JStr "active")]))
           Demo.store); [reflexivity | left; reflexivity].
Defined.

End Instances.

(** * Further properties *)

(** ** The generator and what a request leaves alone *)

Section Generated.
Context {W : Type} `{MockData.Env W}.
Import MockData Service Inv.

Lemma StronglySorted_weaken {A} (R R' : relation A) (l : list A) :
  (∀ a b, R a b → R' a b) → StronglySorted R l → StronglySorted R' l.
Proof.
  intros Himpl. induction 1 as [| x l Hl IH Hx]; constructor; [exact IH |].
  eapply Forall_impl; [exact Hx | apply Himpl].
Qed.

Lemma by_time_consistent {A} (time : A → Z) :
  consistent (λ a b, time a - time b).
Proof. split; intros; lia. Qed.

Lemma generateOrders_sorted (w : W) : by_date (generateOrders w).1.
Proof.
  unfold generateOrders, bind, ret. repeat draw. simpl. unfold by_date.
  eapply StronglySorted_weaken;
    [| apply (sort_sorted _ (by_time_consistent (λ o, getTime (orderDate o))))].
  simpl. intros a b Hab. lia.
Qed.

Lemma by_date_last (orders : list Order) (z : Order) :
  by_date orders → last orders = Some z →
  ∀ o, o ∈ orders → getTime (orderDate o) ≤ getTime (orderDate z).
Proof.
  intros Hsorted Hlast o Ho. apply last_Some in Hlast as [l' ->].
  apply elem_of_app in Ho as [Ho | Ho].
  - unfold by_date in Hsorted.
    apply (StronglySorted_app_1_elem_of _ _ _ _ _ Hsorted Ho). left.
  - apply list_elem_of_singleton in Ho as ->. lia.
Qed.

(** X1: the orders of a generated customer are in ascending order of
    [orderDate], whatever the generator drew: each order is at least as old
    as the last one. *)
Theorem generateOrders_by_date (w : W) :
  StronglySorted (λ a b, getTime (orderDate a) ≤ getTime (orderDate b))
    (generateOrders w).1
  ∧ ∀ z, last (generateOrders w).1 = Some z →
         Forall (λ o, getTime (orderDate o) ≤ getTime (orderDate z))
           (generateOrders w).1.
Proof.
  split; [apply generateOrders_sorted |].
  intros z Hlast. apply Forall_forall.
  apply (by_date_last _ z (generateOrders_sorted w) Hlast).
Qed.

Lemma createCustomerWithId_fresh (id' : string) (n e : option string) (w : W) :
  fresh (createCustomerWithId id' n e w).1.
Proof.
  unfold createCustomerWithId, bind, ret, fresh.
  destruct (generateOrders w) as [orders w1] eqn:Horders. repeat draw. simpl.
  split; [exists w; rewrite Horders; reflexivity | auto].
Qed.

Lemma generateMockCustomers_fresh (count : Z) (w : W) :
  Forall fresh (generateMockCustomers count w).1.
Proof.
  unfold generateMockCustomers, bind, ret.
  pose proof (map_at_Forall fresh
    (λ id index, createCustomerWithId id
       (Some ("Test User " ++ pretty (index + 1)%nat)%string)
       (Some ("test" ++ pretty (index + 1)%nat ++ "@example.com")%string))
    (λ x i w0, createCustomerWithId_fresh x _ _ w0) knownCustomerIds 0%nat w)
    as Hknown.
  fold createKnownCustomers in Hknown.
  destruct (createKnownCustomers w) as [known w1]. simpl in Hknown.
  match goal with
  | |- context [array_from count ?f w1] =>
      assert (Hrandom : Forall fresh (array_from count f w1).1)
  end.
  { apply array_from_at_Forall. clear. intros i w. unfold bind, ret, fresh.
    destruct (generateOrders w) as [orders w1] eqn:Horders. repeat draw. simpl.
    split; [exists w; rewrite Horders; reflexivity | auto]. }
  draw. simpl in *. apply Forall_app. split; assumption.
Qed.

(** A property of customers that generated customers have and that the two
    assignments of the store keep holds in every store the service
    reaches. *)
Section Reachable.
Variable P : Customer → Prop.
Hypothesis Hfresh : ∀ c, fresh c → P c.
Hypothesis Hstatus : ∀ c s, P c → P (set_status s c).
Hypothesis Hsize :
  ∀ c j o k it size,
    _orders c !! j = Some o → items o !! k = Some it → size_ok size = true →
    P c → P (set_order j (set_item k (set_customSize size it) o) c).

Lemma Forall_insert_found {A} (Q : A → Prop) (l : list A) (i : nat) (x y : A) :
  l !! i = Some x → (Q x → Q y) → Forall Q l → Forall Q (<[i := y]> l).
Proof.
  intros Hi Hxy Hall. apply Forall_insert; [exact Hall |].
  apply Hxy. rewrite Forall_forall in Hall.
  eapply Hall, list_elem_of_lookup_2, Hi.
Qed.

Lemma getCustomerById_Forall (id' : string) (st : State W) :
  Forall P (mockCustomers st) →
  Forall P (mockCustomers (getCustomerById id' st).2).
Proof.
  intros Hall. unfold getCustomerById.
  destruct (Js.find _ _) as [[i c] |]; [exact Hall |].
  pose proof (createCustomerWithId_fresh id' (Some "Fallback Customer")
                (Some "fallback@example.com") (world st)) as Hnew.
  draw. simpl in *. apply Forall_app. split; [exact Hall |].
  constructor; [apply Hfresh, Hnew | constructor].
Qed.

Lemma serve_Forall (req : Request) (st : State W) :
  Forall P (mockCustomers st) → Forall P (mockCustomers (serve req st).2).
Proof.
  intros Hall. destruct req as [req | req]; simpl.
  - unfold Customers.handler.
    destruct (_ =? "GET")%string; [exact Hall |].
    destruct (_ =? "PATCH")%string; [| exact Hall].
    unfold Customers.patch.
    destruct (Js.get _ "customerId") as [cid |]; [| exact Hall].
    destruct (Js.get _ "status") as [s |]; [| exact Hall].
    destruct (_ || _); [exact Hall |].
    destruct (Js.includes_str _ _) as [s' |]; [| exact Hall].
    unfold updateCustomerStatus.
    destruct (Js.find _ _) as [[i c] |] eqn:Hfind; [| exact Hall].
    simpl. apply find_Some in Hfind as (Hi & _).
    eapply Forall_insert_found; [exact Hi | apply Hstatus | exact Hall].
  - unfold Orders.handler.
    destruct (_ =? "GET")%string.
    { unfold Orders.get.
      pose proof (getCustomerById_Forall (Orders.id req) st Hall) as Hget.
      destruct (getCustomerById _ st) as [[c |] st']; exact Hget. }
    destruct (_ =? "PATCH")%string; [| exact Hall].
    unfold Orders.patch.
    destruct (Js.get _ "orderId") as [oid |]; [| exact Hall].
    destruct (Js.get _ "orderItemId") as [iid |]; [| exact Hall].
    destruct (Js.get _ "customSize") as [size |]; [| exact Hall].
    destruct (negb (Js.truthy oid) || negb (Js.truthy iid)
              || negb (Js.truthy size)); [exact Hall |].
    destruct (negb (Orders.is_number (Js.get size "chest"))
              || negb (Orders.is_number (Js.get size "waist"))
              || negb (Orders.is_number (Js.get size "hips"))) eqn:Hformat;
      [exact Hall |].
    assert (Hsize_ok : size_ok size = true).
    { unfold size_ok. destruct (Orders.is_number (Js.get size "chest")),
        (Orders.is_number (Js.get size "waist")),
        (Orders.is_number (Js.get size "hips")); simpl in *; congruence. }
    assert (Hup : Forall P (mockCustomers
                    (updateOrderItemSize (Orders.id req) oid iid size st).2)).
    { unfold updateOrderItemSize.
      destruct (Js.find _ (mockCustomers st)) as [[i c] |] eqn:Hc; [| exact Hall].
      destruct (Js.find _ (_orders c)) as [[j o] |] eqn:Ho; [| exact Hall].
      destruct (Js.find _ (items o)) as [[k it] |] eqn:Hit; [| exact Hall].
      simpl. apply find_Some in Hc as (Hi & _). apply find_Some in Ho as (Hj & _).
      apply find_Some in Hit as (Hk & _).
      eapply Forall_insert_found; [exact Hi | | exact Hall].
      apply Hsize; assumption. }
    destruct (updateOrderItemSize _ _ _ _ st) as [[] st']; [| exact Hup].
    pose proof (getCustomerById_Forall (Orders.id req) st' Hup) as Hget.
    destruct (getCustomerById _ st') as [c st'']. exact Hget.
Qed.

Lemma run_Forall (reqs : list Request) (st : State W) :
  Forall P (mockCustomers st) → Forall P (mockCustomers (run reqs st)).
Proof.
  unfold run. revert st. induction reqs as [| req reqs IH]; intros st Hall;
    simpl; [exact Hall | apply IH, serve_Forall, Hall].
Qed.

Lemma reachable_Forall (w : W) (reqs : list Request) :
  Forall P (mockCustomers (run reqs (init w))).
Proof.
  apply run_Forall. unfold init.
  pose proof (generateMockCustomers_fresh 96 w) as Hgen. draw. simpl in *.
  eapply Forall_impl; [exact Hgen | exact Hfresh].
Qed.

End Reachable.

End Generated.

(** ** Invariants of every store the service reaches *)

Section Invariants.
Context {W : Type} `{MockData.Env W}.
Import MockData Service Inv.

Lemma sum_totals_fmap (orders : list Order) :
  sum_totals orders = foldl add 0%Q (totalAmount <$> orders).
Proof.
  unfold sum_totals. generalize 0%Q. induction orders as [| o orders IH];
    intros q; simpl; [reflexivity | apply IH].
Qed.

(** Replacing an element by one with the same image leaves the images. *)
Lemma fmap_insert_same {A B} (f : A → B) (l : list A) (i : nat) (x y : A) :
  l !! i = Some x → f y = f x → f <$> <[i := y]> l = f <$> l.
Proof.
  intros Hi Hf. rewrite list_fmap_insert, Hf. apply list_insert_id.
  rewrite list_lookup_fmap, Hi. reflexivity.
Qed.

Lemma StronglySorted_same_keys {A B} (f : A → B) (R : relation B)
    (l l' : list A) :
  f <$> l' = f <$> l →
  StronglySorted (λ a b, R (f a) (f b)) l →
  StronglySorted (λ a b, R (f a) (f b)) l'.
Proof.
  intros Heq Hl. revert l' Heq.
  induction Hl as [| x l Hl IH Hx]; intros [| x' l'] Heq; try discriminate;
    [constructor |].
  injection Heq as Hx' Hl'. constructor; [apply IH, Hl' |].
  apply (proj1 (Forall_fmap f (R (f x')) l')).
  replace (f <$> l') with (f <$> l) by (symmetry; exact Hl'). rewrite Hx'.
  apply (proj2 (Forall_fmap f (R (f x)) l)). exact Hx.
Qed.

Lemma summary_ok_fresh (c : Customer) : fresh c → summary_ok c.
Proof.
  intros ([w Horders] & Hrevenue & Hcount & Hlast).
  repeat split; try assumption. rewrite Horders. apply generateOrders_sorted.
Qed.

Lemma summary_ok_set_item (c : Customer) (j k : nat) (o : Order)
    (it' : OrderItem) :
  _orders c !! j = Some o →
  summary_ok c → summary_ok (set_order j (set_item k it' o) c).
Proof.
  intros Hj (Hrevenue & Hcount & Hlast & Hsorted).
  unfold summary_ok. simpl. repeat split.
  - rewrite Hrevenue, !sum_totals_fmap.
    rewrite (fmap_insert_same totalAmount _ j o); [reflexivity | exact Hj |].
    reflexivity.
  - rewrite length_insert. exact Hcount.
  - rewrite Hlast, <- !fmap_last.
    rewrite (fmap_insert_same orderDate _ j o); [reflexivity | exact Hj |].
    reflexivity.
  - unfold by_date in *.
    apply (StronglySorted_same_keys (λ o, getTime (orderDate o)) Z.le
             (_orders c)); [| exact Hsorted].
    apply (fmap_insert_same _ _ j o); [exact Hj | reflexivity].
Qed.

(** X2: in every store the service reaches, from the generated collection
    on and after any sequence of requests, the summary fields of each
    customer agree with the orders it owns: [revenue] is the sum of their
    totals, [orderCount] their number, the orders are in ascending order of
    date and [lastOrderDate] is the date of the last, which no order of the
    customer is later than. *)
Theorem summary_fields_agree (w : W) (reqs : list Request) :
  Forall (λ c,
      revenue c = sum_totals (_orders c)
      ∧ orderCount c = length (_orders c)
      ∧ lastOrderDate c = orderDate <$> last (_orders c)
      ∧ StronglySorted (λ a b, getTime (orderDate a) ≤ getTime (orderDate b))
          (_orders c)
      ∧ (lastOrderDate c = None ↔ _orders c = [])
      ∧ ∀ o d, o ∈ _orders c → lastOrderDate c = Some d →
               getTime (orderDate o) ≤ getTime d)
    (mockCustomers (run reqs (init w))).
Proof.
  eapply Forall_impl.
  - apply (reachable_Forall summary_ok).
    + apply summary_ok_fresh.
    + intros c s Hc. exact Hc.
    + intros c j o k it size Hj _ _. apply summary_ok_set_item, Hj.
  - simpl. intros c (Hrevenue & Hcount & Hlast & Hsorted).
    split; [exact Hrevenue |]. split; [exact Hcount |].
    split; [exact Hlast |]. split; [exact Hsorted |]. split; [split |].
    + rewrite Hlast. intros Hnone.
      destruct (_orders c) as [| o l _] using rev_ind; [reflexivity |].
      rewrite last_snoc in Hnone. discriminate.
    + intros Hnil. rewrite Hlast, Hnil. reflexivity.
    + intros o d Ho Hd. rewrite Hlast in Hd.
      destruct (last (_orders c)) as [z |] eqn:Hz; [| discriminate].
      injection Hd as <-. apply (by_date_last _ z Hsorted Hz o Ho).
Qed.

Lemma generateOrderItems_sizes (w : W) :
  Forall (λ it, size_ok (customSize it) = true) (generateOrderItems w).1.
Proof.
  unfold generateOrderItems, bind, ret.
  destruct (number_int 1 5 w) as [itemCount w1].
  apply array_from_at_Forall. clear. intros _ w.
  repeat draw. reflexivity.
Qed.

Lemma sizes_ok_fresh (c : Customer) : fresh c → sizes_ok c.
Proof.
  intros ([w Horders] & _). unfold sizes_ok. rewrite Horders. clear.
  unfold generateOrders, bind, ret.
  destruct (number_int 0 10 w) as [orderCount w1].
  match goal with
  | |- context [array_from orderCount ?f w1] =>
      assert (Hall : Forall (λ o, Forall (λ it, size_ok (customSize it) = true)
                                   (items o))
                       (array_from orderCount f w1).1)
  end.
  { apply array_from_at_Forall. clear. intros _ w. unfold bind, ret.
    pose proof (generateOrderItems_sizes w) as Hitems. repeat draw. exact Hitems. }
  draw. simpl in *. intros o it Ho Hit. apply sort_elem_of in Ho.
  rewrite Forall_forall in Hall. specialize (Hall o Ho).
  rewrite Forall_forall in Hall. auto.
Qed.

(** X3: in every store the service reaches, the [customSize] of every item
    has [chest], [waist] and [hips] of type number: what GET hands out
    passes the check PATCH makes. *)
Theorem sizes_are_numbers (w : W) (reqs : list Request) :
  Forall (λ c,
      Forall (λ o,
          Forall (λ it,
              Orders.is_number (Js.get (customSize it) "chest") = true
              ∧ Orders.is_number (Js.get (customSize it) "waist") = true
              ∧ Orders.is_number (Js.get (customSize it) "hips") = true)
            (items o))
        (_orders c))
    (mockCustomers (run reqs (init w))).
Proof.
  eapply Forall_impl.
  - apply (reachable_Forall sizes_ok).
    + apply sizes_ok_fresh.
    + intros c s Hc. exact Hc.
    + intros c j o k it size Hj Hk Hsize Hc o' it' Ho' Hit'. simpl in Ho'.
      apply elem_of_insert in Ho' as [-> | Ho']; [| eapply Hc; eassumption].
      simpl in Hit'. apply elem_of_insert in Hit' as [-> | Hit'].
      * exact Hsize.
      * eapply Hc; [eapply list_elem_of_lookup_2, Hj | exact Hit'].
  - simpl. intros c Hc. apply Forall_forall. intros o Ho.
    apply Forall_forall. intros it Hit. specialize (Hc o it Ho Hit).
    unfold size_ok in Hc. apply andb_true_iff in Hc as [Hc Hhips].
    apply andb_true_iff in Hc as [Hchest Hwaist]. auto.
Qed.

End Invariants.

(** ** What a request can and cannot change *)

Section Effects.
Context {W : Type} `{MockData.Env W}.
Import MockData Http Service Inv.

Lemma erase_set_status (s : string) (c : Customer) : erase (set_status s c) = erase c.
Proof. reflexivity. Qed.

Lemma erase_set_item (c : Customer) (j k : nat) (o : Order) (it : OrderItem)
    (size : Js.Val) :
  _orders c !! j = Some o → items o !! k = Some it →
  erase (set_order j (set_item k (set_customSize size it) o) c) = erase c.
Proof.
  intros Hj Hk. unfold erase. simpl. f_equal.
  apply (fmap_insert_same erase_order _ j o); [exact Hj |].
  unfold erase_order. simpl. f_equal.
  apply (fmap_insert_same erase_item _ k it); [exact Hk | reflexivity].
Qed.

Lemma serve_erase (req : Request) (st : State W) :
  erase <$> mockCustomers st `prefix_of` erase <$> mockCustomers (serve req st).2.
Proof.
  assert (Hget : ∀ id' st0,
             erase <$> mockCustomers st0
             `prefix_of` erase <$> mockCustomers (getCustomerById id' st0).2).
  { intros id' st0. unfold getCustomerById.
    destruct (Js.find _ _) as [[i c] |]; [reflexivity |].
    draw. simpl. rewrite fmap_app. apply prefix_app_r. reflexivity. }
  destruct req as [req | req]; simpl.
  - unfold Customers.handler.
    destruct (_ =? "GET")%string; [reflexivity |].
    destruct (_ =? "PATCH")%string; [| reflexivity].
    unfold Customers.patch.
    destruct (Js.get _ "customerId") as [cid |]; [| reflexivity].
    destruct (Js.get _ "status") as [s |]; [| reflexivity].
    destruct (_ || _); [reflexivity |].
    destruct (Js.includes_str _ _) as [s' |]; [| reflexivity].
    unfold updateCustomerStatus.
    destruct (Js.find _ _) as [[i c] |] eqn:Hfind; [| reflexivity].
    simpl. apply find_Some in Hfind as (Hi & _).
    rewrite (fmap_insert_same erase _ i c); [reflexivity | exact Hi |].
    apply erase_set_status.
  - unfold Orders.handler.
    destruct (_ =? "GET")%string.
    { unfold Orders.get. specialize (Hget (Orders.id req) st).
      destruct (getCustomerById _ st) as [[c |] st']; exact Hget. }
    destruct (_ =? "PATCH")%string; [| reflexivity].
    unfold Orders.patch.
    destruct (Js.get _ "orderId") as [oid |]; [| reflexivity].
    destruct (Js.get _ "orderItemId") as [iid |]; [| reflexivity].
    destruct (Js.get _ "customSize") as [size |]; [| reflexivity].
    destruct (negb (Js.truthy oid) || negb (Js.truthy iid)
              || negb (Js.truthy size)); [reflexivity |].
    destruct (negb (Orders.is_number (Js.get size "chest"))
              || negb (Orders.is_number (Js.get size "waist"))
              || negb (Orders.is_number (Js.get size "hips"))); [reflexivity |].
    assert (Hup : erase <$> mockCustomers st
                  = erase <$> mockCustomers
                      (updateOrderItemSize (Orders.id req) oid iid size st).2).
    { unfold updateOrderItemSize.
      destruct (Js.find _ (mockCustomers st)) as [[i c] |] eqn:Hc; [| reflexivity].
      destruct (Js.find _ (_orders c)) as [[j o] |] eqn:Ho; [| reflexivity].
      destruct (Js.find _ (items o)) as [[k it] |] eqn:Hit; [| reflexivity].
      simpl. apply find_Some in Hc as (Hi & _). apply find_Some in Ho as (Hj & _).
      apply find_Some in Hit as (Hk & _). symmetry.
      apply (fmap_insert_same erase _ i c); [exact Hi |].
      apply erase_set_item; assumption. }
    destruct (updateOrderItemSize _ _ _ _ st) as [[] st']; simpl in *;
      [| rewrite Hup; reflexivity].
    specialize (Hget (Orders.id req) st'). rewrite Hup.
    destruct (getCustomerById _ st') as [c st'']. exact Hget.
Qed.

(** X4: whatever requests the service handles, no customer, order or item
    is removed, reordered or changed in anything but a customer's [status]
    and an item's [customSize]: with those two fields blanked, the
    collection before is a prefix of the collection after. *)
Theorem only_status_and_size_change (reqs : list Request) (st : State W) :
  erase <$> mockCustomers st `prefix_of` erase <$> mockCustomers (run reqs st)
  ∧ (length (mockCustomers st) ≤ length (mockCustomers (run reqs st)))%nat
  ∧ ∀ i c,
      mockCustomers st !! i = Some c →
      ∃ c', mockCustomers (run reqs st) !! i = Some c' ∧ erase c' = erase c.
Proof.
  assert (Hprefix : erase <$> mockCustomers st
                    `prefix_of` erase <$> mockCustomers (run reqs st)).
  { unfold run. revert st. induction reqs as [| req reqs IH]; intros st;
      simpl; [reflexivity |].
    etransitivity; [apply serve_erase | apply IH]. }
  split; [exact Hprefix |]. destruct Hprefix as [k Hk]. split.
  - apply (f_equal length) in Hk. rewrite length_app, !length_fmap in Hk. lia.
  - intros i c Hi.
    assert (Hlookup : (erase <$> mockCustomers (run reqs st)) !! i
                      = Some (erase c)).
    { rewrite Hk. apply lookup_app_l_Some. rewrite list_lookup_fmap, Hi.
      reflexivity. }
    rewrite list_lookup_fmap in Hlookup.
    destruct (mockCustomers (run reqs st) !! i) as [c' |]; [| discriminate].
    exists c'. split; [reflexivity |]. simpl in Hlookup. congruence.
Qed.

(** X5: [updateCustomerStatus] succeeds exactly when a customer has the
    given id.  It then assigns the status of the first such customer and
    nothing else: the other fields of that customer, the other customers
    and their order are as before.  When it fails the store is untouched. *)
Theorem updateCustomerStatus_frame (customerId : Js.Val) (s : string)
    (st : State W) :
  ((updateCustomerStatus customerId s st).1 = true
   ↔ ∃ c, c ∈ mockCustomers st ∧ customerId = Js.JStr (id c))
  ∧ ((updateCustomerStatus customerId s st).1 = false →
     (updateCustomerStatus customerId s st).2 = st)
  ∧ ((updateCustomerStatus customerId s st).1 = true →
     ∃ i c c',
       mockCustomers st !! i = Some c
       ∧ customerId = Js.JStr (id c)
       ∧ (∀ j y, mockCustomers st !! j = Some y → (j < i)%nat →
                 customerId ≠ Js.JStr (id y))
       ∧ mockCustomers (updateCustomerStatus customerId s st).2 !! i = Some c'
       ∧ MockData.status c' = s
       ∧ id c' = id c ∧ name c' = name c ∧ email c' = email c
       ∧ revenue c' = revenue c ∧ createdAt c' = createdAt c
       ∧ orderCount c' = orderCount c ∧ lastOrderDate c' = lastOrderDate c
       ∧ _orders c' = _orders c
       ∧ (∀ i', i' ≠ i →
                mockCustomers (updateCustomerStatus customerId s st).2 !! i'
                = mockCustomers st !! i')
       ∧ world (updateCustomerStatus customerId s st).2 = world st).
Proof.
  unfold updateCustomerStatus.
  destruct (Js.find _ (mockCustomers st)) as [[i c] |] eqn:Hfind; simpl.
  - pose proof Hfind as (Hi & Hid & Hfirst)%find_Some.
    apply strict_eq_str_true in Hid.
    split; [| split; [discriminate |]].
    + split; [intros _ | reflexivity]. exists c.
      split; [eapply list_elem_of_lookup_2, Hi | exact Hid].
    + intros _. exists i, c, (set_status s c).
      repeat split; try assumption.
      * intros j y Hj Hlt Hy. specialize (Hfirst j y Hj Hlt).
        apply strict_eq_str_true in Hy. congruence.
      * apply list_lookup_insert_eq. eapply lookup_lt_Some, Hi.
      * intros i' Hne. apply list_lookup_insert_ne. congruence.
  - split; [| split; [reflexivity | discriminate]].
    split; [discriminate |]. intros (c & Hc & Hid).
    rewrite find_None in Hfind. specialize (Hfind c Hc). simpl in Hfind.
    apply strict_eq_str_true in Hid. congruence.
Qed.

(** X6: a request that is not answered 200 leaves the store exactly as it
    was, on both routes and for every method and body; and no request to
    /customers touches the outside world. *)
Theorem failed_request_no_effect (req : Request) (st : State W) :
  (Http.status (serve req st).1 ≠ 200%nat → (serve req st).2 = st)
  ∧ ∀ r, req = ToCustomers r → world (serve req st).2 = world st.
Proof.
  split.
  - destruct req as [req | req]; simpl.
    + unfold Customers.handler.
      destruct (_ =? "GET")%string; [reflexivity |].
      destruct (_ =? "PATCH")%string; [| reflexivity].
      unfold Customers.patch.
      destruct (Js.get _ "customerId") as [cid |]; [| reflexivity].
      destruct (Js.get _ "status") as [s |]; [| reflexivity].
      destruct (_ || _); [reflexivity |].
      destruct (Js.includes_str _ _) as [s' |]; [| reflexivity].
      unfold updateCustomerStatus.
      destruct (Js.find _ _) as [[i c] |]; simpl; [congruence | reflexivity].
    + unfold Orders.handler.
      destruct (_ =? "GET")%string.
      { unfold Orders.get.
        pose proof (getCustomerById_is_Some (Orders.id req) st) as [c Hc].
        destruct (getCustomerById _ st) as [o st']. simpl in Hc. subst o.
        simpl. congruence. }
      destruct (_ =? "PATCH")%string; [| reflexivity].
      unfold Orders.patch.
      destruct (Js.get _ "orderId") as [oid |]; [| reflexivity].
      destruct (Js.get _ "orderItemId") as [iid |]; [| reflexivity].
      destruct (Js.get _ "customSize") as [size |]; [| reflexivity].
      destruct (negb (Js.truthy oid) || negb (Js.truthy iid)
                || negb (Js.truthy size)); [reflexivity |].
      destruct (negb (Orders.is_number (Js.get size "chest"))
                || negb (Orders.is_number (Js.get size "waist"))
                || negb (Orders.is_number (Js.get size "hips"))); [reflexivity |].
      destruct (updateOrderItemSize _ _ _ _ st) as [[] st'] eqn:Hup.
      * destruct (getCustomerById _ st') as [c st'']. simpl. congruence.
      * simpl. intros _. revert Hup. unfold updateOrderItemSize.
        destruct (Js.find _ (mockCustomers st)) as [[i c] |]; [| congruence].
        destruct (Js.find _ (_orders c)) as [[j o] |]; [| congruence].
        destruct (Js.find _ (items o)) as [[k it] |]; congruence.
  - intros r ->. simpl. unfold Customers.handler.
    destruct (_ =? "GET")%string; [reflexivity |].
    destruct (_ =? "PATCH")%string; [| reflexivity].
    unfold Customers.patch.
    destruct (Js.get _ "customerId") as [cid |]; [| reflexivity].
    destruct (Js.get _ "status") as [s |]; [| reflexivity].
    destruct (_ || _); [reflexivity |].
    destruct (Js.includes_str _ _) as [s' |]; [| reflexivity].
    unfold updateCustomerStatus.
    destruct (Js.find _ _) as [[i c] |]; reflexivity.
Qed.

(** X7: [updateOrderItemSize] fails exactly when a link is missing: no
    customer has the id, or the first customer with the id has no order
    with the order id, or the first such order has no item with the item
    id.  It then leaves the store untouched. *)
Theorem updateOrderItemSize_fails (cid : string) (oid iid size : Js.Val)
    (st : State W) :
  ((updateOrderItemSize cid oid iid size st).1 = false
   ↔ (∀ c, c ∈ mockCustomers st → id c ≠ cid)
     ∨ ∃ i c,
         Js.find (λ c, id c =? cid)%string (mockCustomers st) = Some (i, c)
         ∧ ((∀ o, o ∈ _orders c → oid ≠ Js.JStr (orderId o))
            ∨ ∃ j o,
                Js.find (λ o, Js.strict_eq_str (orderId o) oid) (_orders c)
                = Some (j, o)
                ∧ ∀ it, it ∈ items o → iid ≠ Js.JStr (orderItemId it)))
  ∧ ((updateOrderItemSize cid oid iid size st).1 = false →
     (updateOrderItemSize cid oid iid size st).2 = st).
Proof.
  assert (Hnone : ∀ {A} (key : A → string) (v : Js.Val) (l : list A),
             Js.find (λ x, Js.strict_eq_str (key x) v) l = None
             ↔ ∀ x, x ∈ l → v ≠ Js.JStr (key x)).
  { intros A key v l. rewrite find_None.
    split; intros Hall x Hx; specialize (Hall x Hx).
    - intros Hv. apply strict_eq_str_true in Hv. congruence.
    - destruct (Js.strict_eq_str (key x) v) eqn:E; [| reflexivity].
      apply strict_eq_str_true in E. contradiction. }
  unfold updateOrderItemSize.
  destruct (Js.find _ (mockCustomers st)) as [[i c] |] eqn:Hc.
  - destruct (Js.find _ (_orders c)) as [[j o] |] eqn:Ho.
    + destruct (Js.find _ (items o)) as [[k it] |] eqn:Hit; simpl.
      * split; [| discriminate]. split; [discriminate |].
        intros [Hmiss | (i' & c' & [= <- <-] & [Hmiss | (j' & o' & Ho' & Hmiss)])].
        -- apply find_by_id_None in Hmiss. congruence.
        -- apply (Hnone _ orderId) in Hmiss. congruence.
        -- rewrite Ho in Ho'. injection Ho' as <- <-.
           apply (Hnone _ orderItemId) in Hmiss. congruence.
      * split; [| reflexivity]. split; [intros _ | reflexivity].
        right. exists i, c. split; [reflexivity |]. right. exists j, o.
        split; [exact Ho |]. apply (Hnone _ orderItemId), Hit.
    + simpl. split; [| reflexivity]. split; [intros _ | reflexivity].
      right. exists i, c. split; [reflexivity |]. left.
      apply (Hnone _ orderId), Ho.
  - simpl. split; [| reflexivity]. split; [intros _ | reflexivity].
    left. apply find_by_id_None, Hc.
Qed.

End Effects.

(** ** Writing and reading back *)

Section ReadBack.
Context {W : Type} `{MockData.Env W}.
Import MockData Http.

(** X8: PATCH /customers with a valid status and the id of a customer is
    answered 200 with the id and the status; afterwards the first customer
    with that id has the status, and the same request again gets the same
    answer and leaves the store as the first one left it. *)
Theorem patch_status_read_back (req : Customers.Request) (st : State W)
    (cid s : string) :
  Customers.method req = "PATCH" →
  Js.get (Customers.body req) "customerId" = Some (Js.JStr cid) →
  Js.get (Customers.body req) "status" = Some (Js.JStr s) →
  cid ≠ "" →
  s ∈ Customers.validStatuses →
  (∃ c, c ∈ mockCustomers st ∧ id c = cid) →
  (Customers.handler req st).1
  = json 200 (Updated "Customer status updated successfully" (Js.JStr cid) s)
  ∧ (∃ i c,
       Js.find (λ c, id c =? cid)%string (mockCustomers (Customers.handler req st).2)
       = Some (i, c)
       ∧ MockData.status c = s)
  ∧ Customers.handler req (Customers.handler req st).2 = Customers.handler req st.
Proof.
  intros Hm Hcid Hs Hne Hvalid (c0 & Hc0 & Hid0).
  assert (Hpatch : ∀ st0 : State W,
             (∃ i c, Js.find (λ c, id c =? cid)%string (mockCustomers st0)
                     = Some (i, c)) →
             ∃ i c,
               Js.find (λ c, id c =? cid)%string (mockCustomers st0) = Some (i, c)
               ∧ Customers.handler req st0
                 = (json 200 (Updated "Customer status updated successfully"
                                (Js.JStr cid) s),
                    set_customers (<[i := set_status s c]> (mockCustomers st0)) st0)).
  { intros st0 (i & c & Hfind). exists i, c. split; [exact Hfind |].
    unfold Customers.handler. rewrite Hm. simpl. unfold Customers.patch.
    rewrite Hcid, Hs. simpl.
    apply String.eqb_neq in Hne. rewrite Hne.
    assert (Hs_ne : (s =? "")%string = false).
    { apply String.eqb_neq. intros ->.
      repeat (apply elem_of_cons in Hvalid as [Hvalid | Hvalid];
              [discriminate |]). inversion Hvalid. }
    rewrite Hs_ne. simpl. rewrite bool_decide_eq_true_2 by exact Hvalid.
    unfold updateCustomerStatus. simpl.
    change (λ c1 : Customer, (id c1 =? cid)%string)
      with (λ c : Customer, (id c =? cid)%string).
    rewrite Hfind. reflexivity. }
  assert (Hfound : ∃ i c, Js.find (λ c, id c =? cid)%string (mockCustomers st)
                          = Some (i, c)).
  { destruct (Js.find (λ c, id c =? cid)%string (mockCustomers st))
      as [[i c] |] eqn:Hfind; [eauto |].
    destruct (proj1 (find_by_id_None cid (mockCustomers st)) Hfind c0 Hc0 Hid0). }
  destruct (Hpatch st Hfound) as (i & c & Hfind & ->). simpl.
  assert (Hfind' : Js.find (λ c, id c =? cid)%string
                     (<[i := set_status s c]> (mockCustomers st))
                   = Some (i, set_status s c)).
  { eapply find_insert; [exact Hfind |]. simpl.
    apply find_Some in Hfind as (_ & Hid & _). exact Hid. }
  split; [reflexivity |]. split; [exists i, (set_status s c); auto |].
  destruct (Hpatch (set_customers (<[i := set_status s c]> (mockCustomers st)) st))
    as (i' & c' & Hfind'' & ->); [simpl; eauto |].
  simpl in Hfind''. rewrite Hfind' in Hfind''. injection Hfind'' as <- <-.
  unfold set_customers. simpl. rewrite list_insert_insert_eq. reflexivity.
Qed.

(** What a PATCH on the orders route that is answered 200 did. *)
Lemma patch_size_200 (req : Orders.Request) (st : State W) :
  Orders.method req = "PATCH" →
  Http.status (Orders.handler req st).1 = 200%nat →
  ∃ oid iid size i c j o k it,
    Js.get (Orders.body req) "orderId" = Some oid
    ∧ Js.get (Orders.body req) "orderItemId" = Some iid
    ∧ Js.get (Orders.body req) "customSize" = Some size
    ∧ Js.truthy oid = true ∧ Js.truthy iid = true ∧ Inv.size_ok size = true
    ∧ Js.find (λ c, id c =? Orders.id req)%string (mockCustomers st) = Some (i, c)
    ∧ Js.find (λ o, Js.strict_eq_str (orderId o) oid) (_orders c) = Some (j, o)
    ∧ Js.find (λ it, Js.strict_eq_str (orderItemId it) iid) (items o)
      = Some (k, it)
    ∧ Orders.handler req st
      = (json 200 (ItemUpdated "Order item updated successfully"
                     (Some (set_customSize size it))),
         set_customers
           (<[i := set_order j (set_item k (set_customSize size it) o) c]>
              (mockCustomers st)) st).
Proof.
  intros Hm. unfold Orders.handler. rewrite Hm. simpl. unfold Orders.patch.
  destruct (Js.get _ "orderId") as [oid |]; [| simpl; lia].
  destruct (Js.get _ "orderItemId") as [iid |]; [| simpl; lia].
  destruct (Js.get _ "customSize") as [size |]; [| simpl; lia].
  destruct (negb (Js.truthy oid) || negb (Js.truthy iid)
            || negb (Js.truthy size)) eqn:Hmissing; [simpl; lia |].
  destruct (negb (Orders.is_number (Js.get size "chest"))
            || negb (Orders.is_number (Js.get size "waist"))
            || negb (Orders.is_number (Js.get size "hips"))) eqn:Hformat;
    [simpl; lia |].
  unfold updateOrderItemSize.
  destruct (Js.find _ (mockCustomers st)) as [[i c] |] eqn:Hc; [| simpl; lia].
  destruct (Js.find _ (_orders c)) as [[j o] |] eqn:Ho; [| simpl; lia].
  destruct (Js.find _ (items o)) as [[k it] |] eqn:Hit; [| simpl; lia].
  intros _. exists oid, iid, size, i, c, j, o, k, it.
  assert (Hc' : Js.find (λ c, id c =? Orders.id req)%string
                  (<[i := set_order j (set_item k (set_customSize size it) o) c]>
                     (mockCustomers st))
                = Some (i, set_order j (set_item k (set_customSize size it) o) c)).
  { eapply find_insert; [exact Hc |]. simpl.
    apply find_Some in Hc as (_ & Hid & _). exact Hid. }
  assert (Ho' : Js.find (λ o, Js.strict_eq_str (orderId o) oid)
                  (<[j := set_item k (set_customSize size it) o]> (_orders c))
                = Some (j, set_item k (set_customSize size it) o)).
  { eapply find_insert; [exact Ho |]. simpl.
    apply find_Some in Ho as (_ & Hid & _). exact Hid. }
  assert (Hit' : Js.find (λ it, Js.strict_eq_str (orderItemId it) iid)
                   (<[k := set_customSize size it]> (items o))
                 = Some (k, set_customSize size it)).
  { eapply find_insert; [exact Hit |]. simpl.
    apply find_Some in Hit as (_ & Hid & _). exact Hid. }
  simpl.
  rewrite (getCustomerById_found (Orders.id req)
             (set_customers
                (<[i := set_order j (set_item k (set_customSize size it) o) c]>
                   (mockCustomers st)) st) _ _ Hc'). simpl.
  rewrite Ho'. simpl. rewrite Hit'. simpl.
  destruct (Js.truthy oid), (Js.truthy iid); try discriminate.
  repeat split; try reflexivity; try assumption.
  unfold Inv.size_ok.
  destruct (Orders.is_number (Js.get size "chest")),
    (Orders.is_number (Js.get size "waist")),
    (Orders.is_number (Js.get size "hips")); simpl in *; congruence.
Qed.

(** X9: when PATCH /customers/[id]/orders is answered 200, the answer
    carries the item that was found, with the [customSize] of the request
    and its other fields as they were; a GET of the same customer then
    returns that customer's orders, the same as before but for that item,
    the total of its order included, and creates nothing; and the same
    PATCH again gets the same answer and changes nothing more. *)
Theorem patch_size_read_back (req : Orders.Request) (st : State W) :
  Orders.method req = "PATCH" →
  Http.status (Orders.handler req st).1 = 200%nat →
  ∃ size i c j o k it,
    Js.get (Orders.body req) "customSize" = Some size
    ∧ mockCustomers st !! i = Some c ∧ id c = Orders.id req
    ∧ _orders c !! j = Some o ∧ items o !! k = Some it
    ∧ Http.body (Orders.handler req st).1
      = ItemUpdated "Order item updated successfully"
          (Some {| orderItemId := orderItemId it; itemName := itemName it;
                   category := category it; price := price it;
                   customSize := size |})
    ∧ Orders.handler
        {| Orders.method := "GET"; Orders.id := Orders.id req;
           Orders.body := Js.JUndef |}
        (Orders.handler req st).2
      = (json 200 (Http.Orders
           (<[j := {| orderId := orderId o; orderDate := orderDate o;
                      totalAmount := totalAmount o;
                      items := <[k := {| orderItemId := orderItemId it;
                                         itemName := itemName it;
                                         category := category it;
                                         price := price it;
                                         customSize := size |}]> (items o) |}]>
              (_orders c))),
         (Orders.handler req st).2)
    ∧ Orders.handler req (Orders.handler req st).2 = Orders.handler req st.
Proof.
  intros Hm H200.
  destruct (patch_size_200 req st Hm H200)
    as (oid & iid & size & i & c & j & o & k & it & Hoid & Hiid & Hsize
        & Htoid & Htiid & Hok & Hc & Ho & Hit & Heq).
  exists size, i, c, j, o, k, it.
  pose proof Hc as (Hi & Hid & _)%find_Some. apply String.eqb_eq in Hid.
  pose proof Ho as (Hj & _)%find_Some. pose proof Hit as (Hk & _)%find_Some.
  rewrite Heq. simpl.
  assert (Hc' : Js.find (λ c, id c =? Orders.id req)%string
                  (<[i := set_order j (set_item k (set_customSize size it) o) c]>
                     (mockCustomers st))
                = Some (i, set_order j (set_item k (set_customSize size it) o) c)).
  { eapply find_insert; [exact Hc |]. simpl. apply String.eqb_eq, Hid. }
  repeat split; try assumption.
  - unfold Orders.handler, Orders.get. simpl.
    rewrite (getCustomerById_found (Orders.id req)
               (set_customers
                  (<[i := set_order j (set_item k (set_customSize size it) o) c]>
                     (mockCustomers st)) st) _ _ Hc'). reflexivity.
  - assert (H200' : Http.status
              (Orders.handler req
                 (set_customers
                    (<[i := set_order j (set_item k (set_customSize size it) o) c]>
                       (mockCustomers st)) st)).1 = 200%nat).
    { clear Heq. unfold Orders.handler. rewrite Hm. simpl. unfold Orders.patch.
      rewrite Hoid, Hiid, Hsize, Htoid, Htiid. simpl.
      assert (Hts : Js.truthy size = true)
        by (destruct size; simpl in *; try discriminate; reflexivity).
      rewrite Hts. simpl.
      unfold Inv.size_ok in Hok.
      destruct (Orders.is_number (Js.get size "chest")),
        (Orders.is_number (Js.get size "waist")),
        (Orders.is_number (Js.get size "hips")); try discriminate. simpl.
      unfold updateOrderItemSize. simpl. rewrite Hc'. simpl.
      rewrite (find_insert _ _ j o (set_item k (set_customSize size it) o) Ho)
        by (simpl; apply find_Some in Ho as (_ & E & _); exact E).
      simpl.
      rewrite (find_insert _ _ k it (set_customSize size it) Hit)
        by (simpl; apply find_Some in Hit as (_ & E & _); exact E).
      simpl. destruct (getCustomerById _ _) as [c1 st1]. reflexivity. }
    destruct (patch_size_200 req _ Hm H200')
      as (oid2 & iid2 & size2 & i2 & c2 & j2 & o2 & k2 & it2 & Hoid2 & Hiid2
          & Hsize2 & _ & _ & _ & Hc2 & Ho2 & Hit2 & Heq2).
    rewrite Hoid in Hoid2. rewrite Hiid in Hiid2. rewrite Hsize in Hsize2.
    injection Hoid2 as <-. injection Hiid2 as <-. injection Hsize2 as <-.
    simpl in Hc2. rewrite Hc' in Hc2. injection Hc2 as <- <-.
    simpl in Ho2.
    rewrite (find_insert _ _ j o (set_item k (set_customSize size it) o) Ho)
      in Ho2 by (simpl; apply find_Some in Ho as (_ & E & _); exact E).
    injection Ho2 as <- <-. simpl in Hit2.
    rewrite (find_insert _ _ k it (set_customSize size it) Hit) in Hit2
      by (simpl; apply find_Some in Hit as (_ & E & _); exact E).
    injection Hit2 as <- <-.
    rewrite Heq2. unfold set_customers, set_order, set_item. simpl.
    rewrite !list_insert_insert_eq. reflexivity.
Qed.

End ReadBack.

(** ** The collection the service starts with *)

Section InitialCollection.
Context {W : Type} `{MockData.Env W}.
Import MockData.

Lemma array_from_at_length {A} (f : nat → Gen W A) (n i : nat) (w : W) :
  length (array_from_at i n f w).1 = n.
Proof.
  revert i w. induction n as [| n IH]; intros i w; simpl; [reflexivity |].
  unfold bind, ret. destruct (f i w) as [x w1]. specialize (IH (S i) w1).
  destruct (array_from_at (S i) n f w1) as [xs w2]. simpl in *. lia.
Qed.

Lemma map_at_length {A B} (f : A → nat → Gen W B) (l : list A) (i : nat)
    (w : W) :
  length (map_at i f l w).1 = length l.
Proof.
  revert i w. induction l as [| x l IH]; intros i w; simpl; [reflexivity |].
  unfold bind, ret. destruct (f x i w) as [y w1]. specialize (IH (S i) w1).
  destruct (map_at (S i) f l w1) as [ys w2]. simpl in *. lia.
Qed.

(** What [map_at] makes of each element shows in the result, in order. *)
Lemma map_at_fmap {A B C} (f : A → nat → Gen W B) (g : B → C) (h : A → nat → C) :
  (∀ x i w, g (f x i w).1 = h x i) →
  ∀ l i w, g <$> (map_at i f l w).1 = imap (λ k x, h x (i + k)%nat) l.
Proof.
  intros Hf. induction l as [| x l IH]; intros i w; simpl; [reflexivity |].
  unfold bind, ret. pose proof (Hf x i w) as Hx. destruct (f x i w) as [y w1].
  pose proof (IH (S i) w1) as Hys. destruct (map_at (S i) f l w1) as [ys w2].
  simpl in *. rewrite Nat.add_0_r. f_equal; [exact Hx |].
  etransitivity; [exact Hys |].
  apply imap_ext. intros k z _. simpl. f_equal. lia.
Qed.

(** A name and an email that are given are used as they are. *)
Lemma createCustomerWithId_given (id' n e : string) (w : W) :
  n ≠ "" → e ≠ "" →
  name (createCustomerWithId id' (Some n) (Some e) w).1 = n
  ∧ email (createCustomerWithId id' (Some n) (Some e) w).1 = e.
Proof.
  intros Hn He. unfold createCustomerWithId, bind, ret, or_else.
  apply String.eqb_neq in Hn, He. rewrite Hn, He. unfold ret.
  repeat draw. split; reflexivity.
Qed.

Lemma find_known {A} (key : A → string) (l : list A) (n k : nat)
    (ids : list string) (id' : string) :
  key <$> take n l = ids → NoDup ids → ids !! k = Some id' →
  ∃ x, l !! k = Some x ∧ key x = id'
       ∧ Js.find (λ x, key x =? id')%string l = Some (k, x).
Proof.
  intros Hids Hnodup Hk. subst ids.
  rewrite list_lookup_fmap in Hk.
  destruct (take n l !! k) as [x |] eqn:Hx; [| discriminate].
  injection Hk as Hkey.
  assert (Hlt : (k < n)%nat).
  { destruct (decide (k < n)%nat) as [Hlt | Hge]; [exact Hlt |].
    rewrite lookup_take_ge in Hx by lia. discriminate. }
  rewrite lookup_take_lt in Hx by exact Hlt.
  exists x. split; [exact Hx |]. split; [exact Hkey |].
  apply find_Some. split; [exact Hx |]. split; [apply String.eqb_eq, Hkey |].
  intros j y Hj Hjk. apply String.eqb_neq. intros Hy.
  assert (Hj' : (key <$> take n l) !! j = Some id').
  { rewrite list_lookup_fmap, lookup_take_lt by lia. rewrite Hj. simpl.
    congruence. }
  assert (Hk' : (key <$> take n l) !! k = Some id').
  { rewrite list_lookup_fmap, lookup_take_lt by lia. rewrite Hx. simpl.
    congruence. }
  pose proof (NoDup_lookup _ _ _ _ Hnodup Hj' Hk'). lia.
Qed.

(** X10: whatever the generator draws, the service starts with 100
    customers, the first four of which carry the known ids, in their order,
    and the names and emails of the test users; looking one of the known
    ids up finds that customer and creates nothing. *)
Theorem initial_collection (w : W) :
  length (mockCustomers (init w)) = 100%nat
  ∧ id <$> take 4 (mockCustomers (init w)) = knownCustomerIds
  ∧ name <$> take 4 (mockCustomers (init w))
    = ["Test User 1"; "Test User 2"; "Test User 3"; "Test User 4"]
  ∧ email <$> take 4 (mockCustomers (init w))
    = ["test1@example.com"; "test2@example.com"; "test3@example.com";
       "test4@example.com"]
  ∧ ∀ k id',
      knownCustomerIds !! k = Some id' →
      ∃ c, mockCustomers (init w) !! k = Some c
           ∧ getCustomerById id' (init w) = (Some c, init w).
Proof.
  set (known_name := λ index : nat, ("Test User " ++ pretty (index + 1)%nat)%string).
  set (known_email :=
         λ index : nat, ("test" ++ pretty (index + 1)%nat ++ "@example.com")%string).
  assert (Hknown : ∀ w0,
             (λ c, (id c, name c, email c)) <$> (createKnownCustomers w0).1
             = imap (λ k x, (x, known_name k, known_email k)) knownCustomerIds
             ∧ length (createKnownCustomers w0).1 = 4%nat).
  { intros w0. split.
    - unfold createKnownCustomers.
      apply (map_at_fmap _ (λ c, (id c, name c, email c))
               (λ x i, (x, known_name i, known_email i))).
      intros x i w1.
      destruct (createCustomerWithId_given x (known_name i) (known_email i) w1)
        as [Hn He]; [discriminate.. |].
      fold (known_name i). fold (known_email i).
      rewrite createCustomerWithId_id, Hn, He. reflexivity.
    - unfold createKnownCustomers. rewrite map_at_length. reflexivity. }
  assert (Hsplit : ∃ known random,
             mockCustomers (init w) = known ++ random
             ∧ (λ c, (id c, name c, email c)) <$> known
               = imap (λ k x, (x, known_name k, known_email k)) knownCustomerIds
             ∧ length known = 4%nat ∧ length random = 96%nat).
  { unfold init, generateMockCustomers, bind, ret.
    destruct (Hknown w) as [Hfields Hlength].
    destruct (createKnownCustomers w) as [known w1]. simpl in *.
    match goal with
    | |- context [array_from 96 ?f w1] =>
        pose proof (array_from_at_length f 96 0 w1) as Hrandom
    end.
    unfold array_from. change (Z.to_nat 96) with 96%nat.
    destruct (array_from_at 0 96 _ w1) as [random w2]. simpl in *.
    exists known, random. auto. }
  destruct Hsplit as (known & random & Hinit & Hfields & Hlen & Hrandom).
  assert (Htake : take 4 (mockCustomers (init w)) = known).
  { rewrite Hinit, take_app_length' by (symmetry; exact Hlen). reflexivity. }
  assert (Hproj : ∀ {C} (g : string * string * string → C) (f : Customer → C),
             (∀ c, f c = g (id c, name c, email c)) →
             f <$> known
             = g <$> imap (λ k x, (x, known_name k, known_email k))
                       knownCustomerIds).
  { intros C g f Hfg. rewrite <- Hfields, <- list_fmap_compose.
    apply list_fmap_ext. intros _ c _. apply Hfg. }
  assert (Hids : id <$> take 4 (mockCustomers (init w)) = knownCustomerIds).
  { rewrite Htake, (Hproj _ (λ t, t.1.1) id) by reflexivity. reflexivity. }
  split; [rewrite Hinit, length_app; lia |]. split; [exact Hids |].
  split; [rewrite Htake, (Hproj _ (λ t, t.1.2) name) by reflexivity;
          reflexivity |].
  split; [rewrite Htake, (Hproj _ (λ t, t.2) email) by reflexivity;
          reflexivity |].
  intros k id' Hk.
  assert (Hnodup : NoDup knownCustomerIds).
  { unfold knownCustomerIds. repeat (constructor; [
      intros Hin; repeat (apply elem_of_cons in Hin as [Hin | Hin];
                          [discriminate |]); inversion Hin |]).
    constructor. }
  destruct (find_known id _ 4 k _ id' Hids Hnodup Hk) as (c & Hc & _ & Hfind).
  exists c. split; [exact Hc |]. eapply getCustomerById_found, Hfind.
Qed.

End InitialCollection.

(** ** GET /customers at the edges *)

Section QueryEdges.
Context {W : Type}.
Import MockData Http Customers.

Lemma sort_all_ties {A} (cmp : A → A → Z) (l : list A) :
  (∀ a b, cmp a b = 0) → Js.sort cmp l = l.
Proof.
  intros Htie. induction l as [| x l IH]; simpl; [reflexivity |].
  rewrite IH. destruct l as [| y l]; simpl; [reflexivity |].
  rewrite Htie. reflexivity.
Qed.

(** X11: a sort key that is not a field of a customer orders nothing: the
    sort step returns the customers in the order the filter left them, in
    either direction. *)
Theorem unknown_sort_key (key : string) (order : QVal)
    (customers : list Customer) :
  key ∉ ["id"; "name"; "email"; "status"; "revenue"; "createdAt";
         "orderCount"; "lastOrderDate"; "_orders"] →
  sortStep (QStr key) order customers = customers.
Proof.
  intros Hkey. simpl. apply sort_all_ties. intros a b.
  assert (Hfield : ∀ c, field key c = FUndef).
  { intros c. unfold field.
    repeat (match goal with
            | |- context [if (key =? ?k)%string then _ else _] =>
                destruct (String.eqb_spec key k) as [-> | _];
                [exfalso; apply Hkey;
                 repeat (first [left; reflexivity | right]) |]
            end).
    reflexivity. }
  unfold compare. rewrite !Hfield. simpl. destruct (is_str "desc" order);
    reflexivity.
Qed.

(** X12: a page or a limit that [parseInt] cannot read, a limit of 0 and a
    page of 0 are not errors: the answer is 200 with no customer, and
    [totalItems] still counts what the filter kept.  The page and the
    limit, where they are numbers, are safe integers. *)
Theorem get_unreadable_page (req : Request) (st : State W) :
  method req = "GET" →
  let pageNum := Js.parseInt (to_string (default (QStr "1") (query req !! "page"))) in
  let limitNum := Js.parseInt (to_string (default (QStr "10") (query req !! "limit"))) in
  pageNum = None ∨ limitNum = None ∨ limitNum = Some 0 ∨ pageNum = Some 0 →
  (∀ page, pageNum = Some page → Js.safe page) →
  (∀ limit, limitNum = Some limit → Js.safe limit) →
  ∃ pages,
    handler req st
    = (json 200 (Page []
         {| currentPage := pageNum; totalPages := pages;
            totalItems :=
              length (filterStep (default (QStr "") (query req !! "search"))
                        (mockCustomers st));
            itemsPerPage := limitNum |}), st)
    ∧ (limitNum = None ∨ limitNum = Some 0 → pages = None).
Proof.
  intros Hm pageNum limitNum Hbad _ _.
  set (filtered := filterStep (default (QStr "") (query req !! "search"))
                     (mockCustomers st)).
  exists (ceil_div (Z.of_nat (length filtered)) limitNum).
  split; [| intros [-> | ->]; reflexivity].
  unfold handler. rewrite Hm, String.eqb_refl. unfold get.
  fold pageNum. fold limitNum. fold filtered. rewrite sortStep_length.
  set (l := sortStep _ _ filtered). clearbody l.
  assert (Hend : Js.clamp_index (length l)
                   (plus (mul (sub pageNum (Some 1)) limitNum) limitNum) = 0%nat).
  { assert (Hzero : Js.clamp_index (length l) (Some 0) = 0%nat)
      by (unfold Js.clamp_index; simpl; lia).
    destruct Hbad as [-> | [-> | [-> | ->]]].
    - reflexivity.
    - destruct pageNum; reflexivity.
    - destruct pageNum as [p |]; cbn [sub mul plus]; [| reflexivity].
      replace ((p - 1) * 0 + 0) with 0 by lia. exact Hzero.
    - destruct limitNum as [n |]; cbn [sub mul plus]; [| reflexivity].
      replace ((0 - 1) * n + n) with 0 by lia. exact Hzero. }
  assert (Hslice : Js.slice l (mul (sub pageNum (Some 1)) limitNum)
                     (plus (mul (sub pageNum (Some 1)) limitNum) limitNum) = []).
  { unfold Js.slice. rewrite Hend, Nat.sub_0_l. reflexivity. }
  rewrite Hslice. reflexivity.
Qed.

End QueryEdges.

(** ** GET /customers: the sort step against the order of the specification *)

Section SortOrder.
Import MockData Http Customers.








End SortOrder.

(** ** The tables and the routes together *)

(** [toString] and [parseInt] on the numbers of the query string *)

Section Decimal.

Lemma digit_of_pretty_N_char (m : N) :
  (m < 10)%N →
  Js.digit_of (pretty_N_char m) = Some (Z.of_N m)
  ∧ ∀ s, Js.parseInt (String (pretty_N_char m) s)
         = Js.digits None (String (pretty_N_char m) s).
Proof.
  intros Hm.
  assert (Hcases : m ∈ [0; 1; 2; 3; 4; 5; 6; 7; 8; 9]%N).
  { rewrite !elem_of_cons. lia. }
  rewrite !elem_of_cons in Hcases.
  destruct_or!; subst; try (split; [reflexivity | intros s; reflexivity]).
  apply elem_of_nil in Hcases. contradiction.
Qed.

Lemma digits_pretty_N_go (x : N) :
  (0 < x)%N → ∀ s acc,
  default 0 acc = 0 →
  Js.digits acc (pretty_N_go x s) = Js.digits (Some (Z.of_N x)) s.
Proof.
  induction (N.lt_wf_0 x) as [x _ IH]. intros Hx s acc Hacc.
  rewrite pretty_N_go_step by exact Hx.
  pose proof (N.mod_lt x 10 ltac:(lia)) as Hmod.
  pose proof (N.div_mod x 10 ltac:(lia)) as Hdiv.
  destruct (digit_of_pretty_N_char (x `mod` 10) Hmod) as [Hdigit _].
  destruct (decide (x `div` 10 = 0)%N) as [Hzero | Hpos].
  - rewrite Hzero, pretty_N_go_0. cbn [Js.digits]. rewrite Hdigit, Hacc.
    f_equal. f_equal. lia.
  - assert (Hlt : (x `div` 10 < x)%N) by (apply N.div_lt; lia).
    assert (Hgt : (0 < x `div` 10)%N) by lia.
    rewrite (IH (x `div` 10)%N Hlt Hgt _ acc Hacc).
    cbn [Js.digits]. rewrite Hdigit. f_equal. f_equal.
    change (default 0 (Some (Z.of_N (x `div` 10)))) with (Z.of_N (x `div` 10)).
    lia.
Qed.

Lemma pretty_N_go_head (x : N) :
  (0 < x)%N → ∀ s, ∃ m s', (m < 10)%N ∧ pretty_N_go x s = String (pretty_N_char m) s'.
Proof.
  induction (N.lt_wf_0 x) as [x _ IH]. intros Hx s.
  rewrite pretty_N_go_step by exact Hx.
  pose proof (N.mod_lt x 10 ltac:(lia)) as Hmod.
  pose proof (N.div_mod x 10 ltac:(lia)) as Hdiv.
  destruct (decide (x `div` 10 = 0)%N) as [Hzero | Hpos].
  - rewrite Hzero, pretty_N_go_0. eauto.
  - apply IH; [apply N.div_lt |]; lia.
Qed.

(** [parseInt] reads back what [toString] writes. *)
Lemma parseInt_pretty (n : nat) : Js.parseInt (pretty n) = Some (Z.of_nat n).
Proof.
  unfold pretty, pretty_nat, pretty, pretty_N.
  destruct (decide (N.of_nat n = 0)%N) as [Hzero | Hpos].
  - replace n with 0%nat by lia. reflexivity.
  - destruct (pretty_N_go_head (N.of_nat n) ltac:(lia) "") as (m & s' & Hm & Hhead).
    destruct (digit_of_pretty_N_char m Hm) as [_ Hparse].
    rewrite Hhead, Hparse, <- Hhead.
    rewrite digits_pretty_N_go with (acc := None); [| lia | reflexivity].
    simpl. f_equal. lia.
Qed.

End Decimal.

Section ClientPaging.
Context {W : Type}.
Import MockData Http Customers CustomerTable.

Lemma params_lookup (p : Params) :
  params p !! "page" = Some (QStr (pretty (page p + 1)%nat))
  ∧ params p !! "limit" = Some (QStr (pretty (rowsPerPage p)))
  ∧ params p !! "sortBy" = Some (QStr (sortBy p))
  ∧ params p !! "order" = Some (QStr (sortOrder p))
  ∧ params p !! "search" = Some (QStr (debouncedSearchTerm p)).
Proof. unfold params. repeat split; by simplify_map_eq. Qed.

Lemma concat_pages {A} (r n : nat) (l : list A) :
  concat ((λ i, take r (drop (i * r) l)) <$> seq 0 n) = take (n * r) l.
Proof.
  induction n as [| n IH]; [reflexivity |].
  rewrite seq_S, fmap_app, concat_app, IH. simpl. rewrite app_nil_r.
  rewrite take_take_drop. f_equal. lia.
Qed.

Lemma fetchCustomers_eq (p : Params) (cells : Cells) (st : State W) :
  let filtered :=
    filterStep (QStr (debouncedSearchTerm p)) (mockCustomers st) in
  let sorted := sortStep (QStr (sortBy p)) (QStr (sortOrder p)) filtered in
  fetchCustomers p cells st
  = ({| customers :=
          getCustomerSummary
            <$> take (rowsPerPage p) (drop (page p * rowsPerPage p) sorted);
        totalItems := length filtered;
        error := None |}, st).
Proof.
  intros filtered sorted. unfold fetchCustomers, handler.
  cbn [Customers.method]. rewrite String.eqb_refl. unfold get.
  cbn [Customers.query].
  destruct (params_lookup p) as (-> & -> & -> & -> & ->).
  cbn [default from_option Datatypes.id to_string]. rewrite !parseInt_pretty.
  fold filtered. fold sorted. cbn [sub mul plus].
  replace (Z.of_nat (page p + 1) - 1) with (Z.of_nat (page p)) by lia.
  rewrite (slice_take_drop sorted) by lia.
  rewrite Nat2Z.id, <- Nat2Z.inj_mul, Nat2Z.id.
  change (Fetch.ok (json 200 ?b)) with true. cbn iota.
  cbn [json Http.body Http.totalItems].
  unfold sorted at 2. rewrite sortStep_length. reflexivity.
Qed.

(** X13: what [fetchCustomers] shows.  With the page, the rows per page,
    the sort column, the direction and the search term of the table, the
    table receives rows [page * rowsPerPage] up to
    [page * rowsPerPage + rowsPerPage] of the filtered and sorted customers
    and the number of filtered customers; the error is cleared and the
    store is as before.  The page is sent as [page + 1] in decimal and read
    back by [parseInt]. *)
Theorem fetchCustomers_page (p : Params) (cells : Cells) (st : State W) :
  let filtered :=
    filterStep (QStr (debouncedSearchTerm p)) (mockCustomers st) in
  let sorted := sortStep (QStr (sortBy p)) (QStr (sortOrder p)) filtered in
  fetchCustomers p cells st
  = ({| customers :=
          getCustomerSummary
            <$> take (rowsPerPage p) (drop (page p * rowsPerPage p) sorted);
        totalItems := length filtered;
        error := None |}, st).
Proof. apply fetchCustomers_eq. Qed.

Lemma concat_fmap_fmap {A B} (f : A → B) (g : nat → list A) (l : list nat) :
  concat ((λ i, f <$> g i) <$> l) = f <$> concat (g <$> l).
Proof.
  induction l as [| i l IH]; [reflexivity |].
  rewrite !fmap_cons. cbn [concat]. rewrite IH, fmap_app. reflexivity.
Qed.

(** X14: turning the pages shows every filtered customer exactly once and
    in the sorted order: the rows of pages [0 .. n-1], one after the
    other, are the whole sorted result as soon as [n] pages have room for
    it; a page that lies wholly inside the result is full and a page past
    its end is empty. *)
Theorem pages_cover_the_result (p : Params) (cells : Cells) (st : State W)
    (n : nat) :
  let filtered :=
    filterStep (QStr (debouncedSearchTerm p)) (mockCustomers st) in
  let sorted := sortStep (QStr (sortBy p)) (QStr (sortOrder p)) filtered in
  let shown i := customers (fetchCustomers (setPage i p) cells st).1 in
  (length filtered ≤ n * rowsPerPage p)%nat →
  concat (shown <$> seq 0 n) = getCustomerSummary <$> sorted
  ∧ (∀ i, (S i * rowsPerPage p ≤ length filtered)%nat →
          length (shown i) = rowsPerPage p)
  ∧ (∀ i, (length filtered ≤ i * rowsPerPage p)%nat → shown i = []).
Proof.
  intros filtered sorted shown Hn.
  assert (Hshown : ∀ i, shown i
            = getCustomerSummary
                <$> take (rowsPerPage p) (drop (i * rowsPerPage p) sorted)).
  { intros i. unfold shown. rewrite fetchCustomers_eq. reflexivity. }
  assert (Hlen : length sorted = length filtered) by apply sortStep_length.
  split; [| split].
  - rewrite (list_fmap_ext shown
               (λ i, getCustomerSummary
                       <$> take (rowsPerPage p) (drop (i * rowsPerPage p) sorted))
               (seq 0 n)) by (intros; apply Hshown).
    rewrite concat_fmap_fmap, concat_pages, take_ge by lia. reflexivity.
  - intros i Hi. rewrite Hshown, length_fmap, length_take, length_drop. lia.
  - intros i Hi. rewrite Hshown, drop_ge, take_nil by lia. reflexivity.
Qed.

End ClientPaging.

Section ClientSync.
Context {W : Type} `{MockData.Env W}.
Import MockData Http.


Lemma fmap_insert_key {A} (key : A → string) (l : list A) (i : nat) (x y : A) :
  l !! i = Some x → key y = key x → key <$> <[i := y]> l = key <$> l.
Proof.
  intros Hi Hkey. rewrite list_fmap_insert, Hkey.
  apply list_insert_id. rewrite list_lookup_fmap, Hi. reflexivity.
Qed.

(** X15: the rows of the table stay rows of the store when a status is
    saved.  If the ids of the customers are unique and every row shows a
    customer of the store, then after [handleSave], whatever the answer,
    every row shows a customer of the new store; the rows keep their ids
    and the store keeps its ids.  The update of the table rewrites every
    row with the id, the route only the first customer with it. *)
Theorem handleSave_rows_agree (customerId editedStatus : string)
    (rows : list Summary.t) (error : option string) (st : State W) :
  let shown (st : State W) (rows : list Summary.t) :=
    Forall (λ row, ∃ c, c ∈ mockCustomers st ∧ getCustomerSummary c = row) rows in
  let result := CustomerTable.handleSave customerId editedStatus rows error st in
  NoDup (id <$> mockCustomers st) →
  shown st rows →
  shown result.2 result.1.1
  ∧ Summary.id <$> result.1.1 = Summary.id <$> rows
  ∧ id <$> mockCustomers result.2 = id <$> mockCustomers st.
Proof.
  intros shown result Hnodup Hrows.
  assert (Hsame : shown st rows ∧ Summary.id <$> rows = Summary.id <$> rows
                  ∧ id <$> mockCustomers st = id <$> mockCustomers st)
    by (split; [exact Hrows | split; reflexivity]).
  unfold result, CustomerTable.handleSave, Customers.handler.
  cbn [Customers.method]. change ("PATCH" =? "GET")%string with false.
  rewrite String.eqb_refl. cbn iota.
  unfold Customers.patch. cbn [Customers.body].
  change (Js.get (Js.JObj [("customerId", Js.JStr customerId);
                           ("status", Js.JStr editedStatus)]) "customerId")
    with (Some (Js.JStr customerId)).
  change (Js.get (Js.JObj [("customerId", Js.JStr customerId);
                           ("status", Js.JStr editedStatus)]) "status")
    with (Some (Js.JStr editedStatus)).
  cbn iota.
  destruct (negb (Js.truthy (Js.JStr customerId))
            || negb (Js.truthy (Js.JStr editedStatus))); [exact Hsame |].
  destruct (Js.includes_str Customers.validStatuses (Js.JStr editedStatus))
    as [s |] eqn:Hinc; [| exact Hsame].
  apply includes_str_Some in Hinc as [[= <-] _].
  unfold updateCustomerStatus.
  destruct (Js.find _ (mockCustomers st)) as [[i c] |] eqn:Hfind;
    [| exact Hsame].
  clear Hsame. apply find_Some in Hfind as (Hi & Hid & _).
  apply strict_eq_str_true in Hid. injection Hid as Hid.
  change (Fetch.ok (json 200 ?b)) with true. cbn iota.
  cbn [fst snd mockCustomers set_customers].
  split; [| split].
  - unfold shown. rewrite Forall_fmap. eapply Forall_impl; [exact Hrows |].
    intros row (c0 & Hc0 & <-). simpl.
    apply list_elem_of_lookup in Hc0 as [j Hj].
    destruct (String.eqb_spec (id c0) customerId) as [Hc0 | Hc0].
    + assert (j = i) as ->.
      { apply (NoDup_lookup (id <$> mockCustomers st) j i customerId Hnodup);
          rewrite list_lookup_fmap; [rewrite Hj | rewrite Hi]; simpl; congruence. }
      assert (c0 = c) as -> by congruence.
      exists (set_status editedStatus c). split; [| reflexivity].
      eapply list_elem_of_lookup_2. apply list_lookup_insert_eq.
      eapply lookup_lt_Some, Hi.
    + exists c0. split; [| reflexivity].
      eapply list_elem_of_lookup_2 with (i := j).
      rewrite list_lookup_insert_ne; [exact Hj |]. intros ->. congruence.
  - rewrite <- list_fmap_compose. apply list_fmap_ext. intros j row _. simpl.
    destruct (_ =? _)%string; reflexivity.
  - apply (fmap_insert_key id _ i c); [exact Hi | reflexivity].
Qed.

Lemma wire_finite (size : Js.Val) :
  Inv.finite_size size = true → Fetch.wire size = size.
Proof.
  destruct size as [| | | | | | fields]; try discriminate. simpl. intros Hall.
  f_equal. induction fields as [| [k v] fields IH]; [reflexivity |].
  simpl in Hall. apply andb_true_iff in Hall as [Hv Hall].
  destruct v as [| | | [q | |] | | |]; try discriminate.
  simpl. rewrite (IH Hall). reflexivity.
Qed.

Lemma erase_wire_order (o : Order) :
  Inv.erase_order (Fetch.order o) = Inv.erase_order o.
Proof.
  unfold Inv.erase_order, Fetch.order. simpl. f_equal.
  rewrite <- list_fmap_compose. apply list_fmap_ext. intros i it _. reflexivity.
Qed.

(** X16: [fetchOrders] for an id that goes into the path as it is never
    fails: the table shows, as read from the JSON of the answer, the
    orders of the customer with that id in the store after the fetch,
    which is the store before it or that store with this one customer
    appended when the id was unknown.  What the table shows can differ from
    the stored orders in the measures only, and is the stored orders when
    all their measures are objects of finite numbers. *)
Theorem fetchOrders_shows_orders (customerId : string) (orders : list Order)
    (error : bool) (st : State W) :
  Fetch.segment customerId = Some customerId →
  ∃ i c st',
    OrdersTable.fetchOrders customerId orders error st
    = Some (Fetch.order <$> _orders c, false, st')
    ∧ Js.find (λ c, id c =? customerId)%string (mockCustomers st') = Some (i, c)
    ∧ (mockCustomers st' = mockCustomers st
       ∨ (mockCustomers st' = mockCustomers st ++ [c]
          ∧ ∀ c0, c0 ∈ mockCustomers st → id c0 ≠ customerId))
    ∧ Inv.erase_order <$> (Fetch.order <$> _orders c)
      = Inv.erase_order <$> _orders c
    ∧ (Forall (λ o, Forall (λ it, Inv.finite_size (customSize it) = true)
                      (items o)) (_orders c) →
       Fetch.order <$> _orders c = _orders c).
Proof.
  intros Hid.
  assert (Hshown : ∀ c : Customer,
    Inv.erase_order <$> (Fetch.order <$> _orders c)
    = Inv.erase_order <$> _orders c
    ∧ (Forall (λ o, Forall (λ it, Inv.finite_size (customSize it) = true)
                      (items o)) (_orders c) →
       Fetch.order <$> _orders c = _orders c)).
  { intros c. split.
    - rewrite <- list_fmap_compose. apply list_fmap_ext. intros i o _.
      apply erase_wire_order.
    - intros Hfinite. rewrite <- (list_fmap_id (_orders c)) at 2.
      apply Forall_fmap_ext_1. eapply Forall_impl; [exact Hfinite |].
      intros [oid date total its] Hits. unfold Fetch.order. simpl. f_equal.
      rewrite <- (list_fmap_id its) at 2. apply Forall_fmap_ext_1.
      eapply Forall_impl; [exact Hits |]. intros [iid nm cat pr size] Hsize.
      unfold Fetch.item, set_customSize. simpl in *.
      rewrite (wire_finite size Hsize). reflexivity. }
  unfold OrdersTable.fetchOrders.
  destruct (String.eqb_spec customerId "") as [-> | _]; [discriminate Hid |].
  rewrite Hid. cbn [mbind option_bind].
  unfold Orders.handler. cbn [Orders.method]. rewrite String.eqb_refl.
  unfold Orders.get. cbn [Orders.id].
  destruct (Js.find (λ c, id c =? customerId)%string (mockCustomers st))
    as [[i c] |] eqn:Hfind.
  - rewrite (getCustomerById_found _ _ _ _ Hfind).
    change (Fetch.ok (json 200 ?b)) with true. cbn.
    exists i, c, st. split; [reflexivity |]. split; [exact Hfind |].
    split; [left; reflexivity | apply Hshown].
  - destruct (getCustomerById_missing _ _ Hfind) as (c & w' & Hc & ->).
    change (Fetch.ok (json 200 ?b)) with true. cbn.
    exists (length (mockCustomers st)), c. eexists.
    split; [reflexivity |]. cbn [mockCustomers]. split; [| split; [| apply Hshown]].
    + apply find_snoc; [exact Hfind |].
      pose proof (createCustomerWithId_id customerId (Some "Fallback Customer")
                    (Some "fallback@example.com") (world st)) as Hnew.
      rewrite Hc in Hnew. simpl in Hnew. rewrite Hnew. apply String.eqb_refl.
    + right. split; [reflexivity |]. apply find_by_id_None, Hfind.
Qed.



End ClientSync.

(** ** The further properties at work *)

Section FurtherInstances.
Import MockData Http Service.

(** Three orders drawn in the small world. *)
Lemma generateOrders_by_date_witness :
  ∃ z, last (generateOrders 3%nat).1 = Some z
       ∧ Forall (λ o, getTime (orderDate o) ≤ getTime (orderDate z))
           (generateOrders 3%nat).1.
Proof.
  eexists. split; [vm_compute; reflexivity |].
  apply (proj2 (generateOrders_by_date 3%nat)). vm_compute. reflexivity.
Defined.

(** The summary fields after bob has churned. *)
Lemma summary_fields_agree_witness :
  Forall (λ c, revenue c = sum_totals (_orders c)
               ∧ orderCount c = length (_orders c))
    (mockCustomers (run [ToCustomers Screen.churn] (init 0%nat))).
Proof.
  eapply Forall_impl;
    [exact (summary_fields_agree 0%nat [ToCustomers Screen.churn]) |].
  intros c (Hrevenue & Hcount & _). split; [exact Hrevenue | exact Hcount].
Defined.

(** bob after he has churned is bob but for his status. *)
Lemma only_status_and_size_change_witness :
  ∃ c', mockCustomers (run [ToCustomers Screen.churn] Demo.store) !! 1%nat
        = Some c'
        ∧ Inv.erase c' = Inv.erase Demo.bob.
Proof.
  apply (proj2 (proj2 (only_status_and_size_change
                         [ToCustomers Screen.churn] Demo.store))).
  reflexivity.
Defined.

Lemma updateCustomerStatus_frame_witness :
  ∃ i c', mockCustomers
            (updateCustomerStatus (Js.JStr "cust-2") "churned" Demo.store).2
            !! i = Some c'
          ∧ MockData.status c' = "churned" ∧ name c' = "bob".
Proof.
  destruct (proj2 (proj2 (updateCustomerStatus_frame (Js.JStr "cust-2")
                            "churned" Demo.store)) eq_refl)
    as (i & c & c' & Hc & Hid & _ & Hc' & Hstatus & _ & Hname & _).
  exists i, c'. split; [exact Hc' |]. split; [exact Hstatus |].
  rewrite Hname. clear Hc' Hstatus Hname.
  destruct i as [| [| [| i]]]; simpl in Hc; try discriminate Hc;
    injection Hc as <-; vm_compute in Hid; first [discriminate Hid | reflexivity].
Defined.

(** "vip" is refused and the store stays. *)
Lemma failed_request_no_effect_witness :
  (serve (ToCustomers
            (Demo.patch_status (Js.JObj [("customerId", Js.JStr "cust-1");
                                         ("status", Js.JStr "vip")])))
     Demo.store).2 = Demo.store.
Proof.
  apply (proj1 (failed_request_no_effect
                  (ToCustomers
                     (Demo.patch_status
                        (Js.JObj [("customerId", Js.JStr "cust-1");
                                  ("status", Js.JStr "vip")])))
                  Demo.store)).
  vm_compute. discriminate.
Defined.

(** ann has no order "order-9". *)
Lemma updateOrderItemSize_fails_witness :
  (updateOrderItemSize "cust-1" (Js.JStr "order-9") (Js.JStr "item-1")
     Demo.negative_chest Demo.store).2 = Demo.store.
Proof.
  apply (proj2 (updateOrderItemSize_fails "cust-1" (Js.JStr "order-9")
                  (Js.JStr "item-1") Demo.negative_chest Demo.store)).
  reflexivity.
Defined.

Lemma patch_status_read_back_witness :
  (Customers.handler Screen.churn Demo.store).1
  = json 200 (Updated "Customer status updated successfully"
                (Js.JStr "cust-2") "churned")
  ∧ Customers.handler Screen.churn (Customers.handler Screen.churn Demo.store).2
    = Customers.handler Screen.churn Demo.store.
Proof.
  destruct (patch_status_read_back Screen.churn Demo.store "cust-2" "churned")
    as (Hresponse & _ & Hagain); try reflexivity.
  - discriminate.
  - right. left.
  - exists Demo.bob. split; [right; left | reflexivity].
  - split; [exact Hresponse | exact Hagain].
Defined.

Lemma patch_size_read_back_witness :
  Orders.handler (Demo.patch_size Demo.negative_chest)
    (Orders.handler (Demo.patch_size Demo.negative_chest) Demo.store).2
  = Orders.handler (Demo.patch_size Demo.negative_chest) Demo.store.
Proof.
  destruct (patch_size_read_back (Demo.patch_size Demo.negative_chest)
              Demo.store eq_refl eq_refl)
    as (size & i & c & j & o & k & it & Hagain).
  apply Hagain.
Defined.

(** The first known customer is there from the start. *)
Lemma initial_collection_witness :
  ∃ c, mockCustomers (init 0%nat) !! 0%nat = Some c
       ∧ getCustomerById "a605ac61-d2cf-4051-b166-c4b4a0c45179" (init 0%nat)
         = (Some c, init 0%nat).
Proof.
  apply (proj2 (proj2 (proj2 (proj2 (initial_collection 0%nat)))) 0%nat).
  reflexivity.
Defined.

(** A customer has no phone. *)
Lemma unknown_sort_key_witness :
  Customers.sortStep (QStr "phone") (QStr "desc") [Demo.cy; Demo.ann; Demo.bob]
  = [Demo.cy; Demo.ann; Demo.bob].
Proof.
  apply unknown_sort_key. intros Hin.
  repeat (apply elem_of_cons in Hin as [Hin | Hin]; [discriminate |]).
  inversion Hin.
Defined.

Lemma get_unreadable_page_witness :
  ∃ pages,
    Customers.handler Screen.page_abc Demo.store
    = (json 200 (Page [] {| currentPage := None; totalPages := pages;
                            totalItems := 3; itemsPerPage := Some 10 |}),
       Demo.store).
Proof.
  destruct (get_unreadable_page Screen.page_abc Demo.store eq_refl)
    as (pages & Hpage & _).
  - left. reflexivity.
  - intros page Hpage. discriminate Hpage.
  - intros limit Hlimit. vm_compute in Hlimit. injection Hlimit as <-.
    unfold Js.safe, Js.MAX_SAFE_INTEGER. lia.
  - exists pages. exact Hpage.
Defined.

(** Two pages of two rows show the three customers. *)
Lemma pages_cover_the_result_witness :
  concat ((λ i, CustomerTable.customers
                  (CustomerTable.fetchCustomers
                     (CustomerTable.setPage i Screen.params) Screen.cells
                     Demo.store).1) <$> seq 0 2)
  = getCustomerSummary
      <$> Customers.sortStep (QStr "name") (QStr "asc") [Demo.ann; Demo.bob; Demo.cy].
Proof.
  apply (pages_cover_the_result Screen.params Screen.cells Demo.store 2).
  simpl. lia.
Defined.

Lemma handleSave_rows_agree_witness :
  Forall (λ row,
      ∃ c, c ∈ mockCustomers
                 (CustomerTable.handleSave "cust-2" "churned"
                    (getCustomerSummary <$> [Demo.ann; Demo.bob]) None
                    Demo.store).2
           ∧ getCustomerSummary c = row)
    (CustomerTable.handleSave "cust-2" "churned"
       (getCustomerSummary <$> [Demo.ann; Demo.bob]) None Demo.store).1.1.
Proof.
  apply (handleSave_rows_agree "cust-2" "churned"
           (getCustomerSummary <$> [Demo.ann; Demo.bob]) None Demo.store).
  - repeat (apply NoDup_cons; split;
            [intros Hin;
             repeat (apply elem_of_cons in Hin as [Hin | Hin]; [discriminate |]);
             inversion Hin |]).
    apply NoDup_nil_2.
  - apply Forall_cons; split; [exists Demo.ann; split; [left | reflexivity] |].
    apply Forall_cons; split;
      [exists Demo.bob; split; [right; left | reflexivity] |].
    apply Forall_nil_2.
Defined.

(** The orders of ann, before and after a chest that is not finite has
    been stored for her first item: the store then holds the infinity and
    the table reads [null]. *)
Lemma fetchOrders_shows_orders_witness :
  (∃ i c st',
     OrdersTable.fetchOrders "cust-1" [] true Demo.store
     = Some (_orders c, false, st')
     ∧ Js.find (λ c, id c =? "cust-1")%string (mockCustomers st') = Some (i, c))
  ∧ OrdersTable.fetchOrders "cust-1" [] true
      (Orders.handler (Demo.patch_size Screen.endless_chest) Demo.store).2
    = Some ([Fetch.order
               (set_item 0 (set_customSize Screen.endless_chest Demo.item1)
                  Demo.order1)],
            false,
            (Orders.handler (Demo.patch_size Screen.endless_chest) Demo.store).2)
  ∧ Js.get (customSize (set_customSize Screen.endless_chest Demo.item1)) "chest"
    = Some (Js.JNum (Js.Inf false))
  ∧ Js.get (customSize
              (Fetch.item (set_customSize Screen.endless_chest Demo.item1)))
      "chest"
    = Some Js.JNull.
Proof.
  split; [| split; [| split]]; [| reflexivity..].
  destruct (fetchOrders_shows_orders "cust-1" [] true Demo.store eq_refl)
    as (i & c & st' & Hfetch & Hfind & Hstore & _ & Hfinite).
  exists i, c, st'. split; [| exact Hfind].
  rewrite Hfetch, Hfinite; [reflexivity |].
  destruct Hstore as [Hstore | [_ Hnew]].
  - rewrite Hstore in Hfind. vm_compute in Hfind. injection Hfind as <- <-.
    repeat constructor.
  - exfalso. apply (Hnew Demo.ann); [left | reflexivity].
Defined.



End FurtherInstances.
